(** * github-issue-to-jira: a shallow embedding of scripts/github-issue-to-jira.mjs

    The script turns a GitHub issue-form submission into a Jira ticket and
    comments back on the issue.  This development embeds the script's helper
    functions, the values it derives (priority, effective SDK version, labels,
    description blocks) and its top-level control flow, and proves the
    properties the specification states about them.

    Conventions of the embedding.
    - A JavaScript string is a [string]; each [ascii] stands for one code unit
      in the Latin-1 range (0..255).  [toLowerCase], [\s] and [trim] are
      given for that range.
    - A JavaScript number is an integer [Z], printed in decimal by [String].
    - A JavaScript object is an association list in insertion order; property
      lookup takes the first binding of a key.
    - Runtime built-ins whose results the script only passes along
      ([JSON.parse], [JSON.stringify], base64 encoding) and the form parser
      of [@github/issue-parser] are parameters of the embedding. *)

From Stdlib Require Import Ascii String ZArith List Lia.
From stdpp Require Import base tactics option list strings pretty gmap.

Local Set Warnings "-register-all".

Local Open Scope list_scope.
Local Open Scope stdpp_scope.

(** ** Code units and character classes *)

Module CodeUnit.

Definition code (c : ascii) : N := N_of_ascii c.

Definition in_range (lo hi : N) (c : ascii) : bool :=
  ((lo <=? code c) && (code c <=? hi))%N.

(** [\s] of a JavaScript regular expression, within Latin-1: tab, line
    feed, vertical tab, form feed, carriage return, space and the
    no-break space. *)
Definition is_space (c : ascii) : bool :=
  in_range 9 13 c || (code c =? 32)%N || (code c =? 160)%N.

Definition is_hyphen (c : ascii) : bool := (code c =? 45)%N.

(** The class [[a-z0-9-_]]: after the range [0-9] the hyphen and the
    underscore are literal members. *)
Definition is_label_char (c : ascii) : bool :=
  in_range 97 122 c || in_range 48 57 c || is_hyphen c || (code c =? 95)%N.

(** [toLowerCase] on one code unit: A-Z and the accented capitals
    U+00C0..U+00DE (the multiplication sign U+00D7 apart) move up by 32. *)
Definition to_lower (c : ascii) : ascii :=
  if in_range 65 90 c || (in_range 192 222 c && negb (code c =? 215)%N)
  then ascii_of_N (code c + 32)
  else c.

Definition hyphen : ascii := "-"%char.

(** Drop the leading code units of a class. *)
Fixpoint drop_class (p : ascii → bool) (s : list ascii) : list ascii :=
  match s with
  | c :: s' => if p c then drop_class p s' else s
  | [] => []
  end.

End CodeUnit.

(** ** A small regular-expression engine

    The script uses four regular expressions, all with the global flag.
    They are built from character classes, greedy [+], the anchors and
    alternation; [rmatch] is a backtracking matcher for that fragment, in
    continuation-passing style, and [replace_go] is
    [String.prototype.replace] for a global expression. *)

Module Regex.

Inductive regex : Type :=
| RClass (p : ascii → bool)
| RPlus (p : ascii → bool)
| RBol
| REol
| RSeq (r1 r2 : regex)
| RAlt (r1 r2 : regex).

Definition kont := bool → list ascii → option (list ascii).

(** Greedy [p+]: take as many code units of the class as possible, giving
    one back at a time while the continuation fails. *)
Fixpoint plus_k (p : ascii → bool) (k : list ascii → option (list ascii))
    (s : list ascii) : option (list ascii) :=
  match s with
  | c :: s' =>
      if p c then
        match plus_k p k s' with
        | Some r => Some r
        | None => k s'
        end
      else None
  | [] => None
  end.

(** [rmatch r bol s k]: match [r] at the current position, [s] being the
    rest of the input and [bol] telling whether the position is the start
    of the input; the result is the rest of the input after the match. *)
Fixpoint rmatch (r : regex) (bol : bool) (s : list ascii) (k : kont)
    : option (list ascii) :=
  match r with
  | RClass p =>
      match s with
      | c :: s' => if p c then k false s' else None
      | [] => None
      end
  | RPlus p => plus_k p (k false) s
  | RBol => if bol then k bol s else None
  | REol => match s with [] => k bol s | _ :: _ => None end
  | RSeq r1 r2 => rmatch r1 bol s (λ b s', rmatch r2 b s' k)
  | RAlt r1 r2 =>
      match rmatch r1 bol s k with
      | Some rest => Some rest
      | None => rmatch r2 bol s k
      end
  end.

Definition exec (r : regex) (bol : bool) (s : list ascii) : option (list ascii) :=
  rmatch r bol s (λ _ rest, Some rest).

(** Replacement of every match, left to right.  [skip] counts the code
    units of the current match still to be dropped; after an empty match
    the scan copies one code unit and moves on. *)
Fixpoint replace_go (r : regex) (rep : list ascii) (bol : bool) (skip : nat)
    (s : list ascii) : list ascii :=
  match skip with
  | S n =>
      match s with
      | _ :: s' => replace_go r rep false n s'
      | [] => []
      end
  | O =>
      match exec r bol s with
      | Some rest =>
          match s with
          | [] => rep
          | c :: s' =>
              match (length s - length rest)%nat with
              | O => rep ++ c :: replace_go r rep false 0 s'
              | S m => rep ++ replace_go r rep false m s'
              end
          end
      | None =>
          match s with
          | [] => []
          | c :: s' => c :: replace_go r rep false 0 s'
          end
      end
  end.

(** [replace] with an expression without the global flag: the leftmost
    match only. *)
Fixpoint replace_first (r : regex) (rep : list ascii) (bol : bool)
    (s : list ascii) : list ascii :=
  match exec r bol s with
  | Some rest => rep ++ rest
  | None =>
      match s with
      | [] => []
      | c :: s' => c :: replace_first r rep false s'
      end
  end.

Definition replace_all (r : regex) (rep : list ascii) (s : list ascii) : list ascii :=
  replace_go r rep true 0 s.

End Regex.

(** ** sanitizeLabel *)

Import CodeUnit Regex.

(** [/\s+/g] *)
Definition re_whitespace : regex := RPlus is_space.
(** [/[^a-z0-9-_]/g] *)
Definition re_disallowed : regex := RClass (λ c, negb (is_label_char c)).
(** [/-+/g] *)
Definition re_hyphens : regex := RPlus is_hyphen.
(** [/^-|-$/g] *)
Definition re_edge_hyphen : regex :=
  RAlt (RSeq RBol (RClass is_hyphen)) (RSeq (RClass is_hyphen) REol).

Definition toLowerCase (s : list ascii) : list ascii := map to_lower s.

Definition sanitize_units (s : list ascii) : list ascii :=
  replace_all re_edge_hyphen []
    (replace_all re_hyphens [hyphen]
      (replace_all re_disallowed [hyphen]
        (replace_all re_whitespace [hyphen]
          (toLowerCase s)))).

Definition sanitize_string (s : string) : string :=
  string_of_list_ascii (sanitize_units (list_ascii_of_string s)).

(** ** JavaScript values *)

Inductive jsval : Type :=
| JUndefined
| JNull
| JBool (b : bool)
| JNum (n : Z)
| JStr (s : string)
| JArr (elems : list jsval)
| JObj (props : list (string * jsval)).

Module Js.

Definition isArray (v : jsval) : bool :=
  match v with JArr _ => true | _ => false end.

Definition typeof (v : jsval) : string :=
  match v with
  | JUndefined => "undefined"
  | JNull | JArr _ | JObj _ => "object"
  | JBool _ => "boolean"
  | JNum _ => "number"
  | JStr _ => "string"
  end.

(** [typeof v === "string"] and [typeof v === "object"] *)
Definition is_string (v : jsval) : bool := String.eqb (typeof v) "string".
Definition is_object (v : jsval) : bool := String.eqb (typeof v) "object".

(** [Boolean(v)], the test behind [!v] and [filter(Boolean)]. *)
Definition truthy (v : jsval) : bool :=
  match v with
  | JUndefined | JNull => false
  | JBool b => b
  | JNum n => negb (n =? 0)%Z
  | JStr s => negb (String.eqb s EmptyString)
  | JArr _ | JObj _ => true
  end.

Definition nullish (v : jsval) : bool :=
  match v with JUndefined | JNull => true | _ => false end.

(** [a ?? b] *)
Definition coalesce (a b : jsval) : jsval := if nullish a then b else a.

(** [v === "literal"] *)
Definition strict_eq_str (v : jsval) (lit : string) : bool :=
  match v with JStr s => String.eqb s lit | _ => false end.

(** Own-property lookup in an object's property list. *)
Fixpoint obj_get (props : list (string * jsval)) (k : string) : jsval :=
  match props with
  | [] => JUndefined
  | (k', v) :: rest => if String.eqb k' k then v else obj_get rest k
  end.

(** [v.k] for the property names the script reads (none of them is a
    built-in of strings, numbers or arrays): [None] stands for the
    TypeError of reading a property of [undefined] or [null]. *)
Definition get (v : jsval) (k : string) : option jsval :=
  match v with
  | JUndefined | JNull => None
  | JObj props => Some (obj_get props k)
  | _ => Some JUndefined
  end.

(** [v.k] once [v] is known not to be nullish. *)
Definition get_or_undef (v : jsval) (k : string) : jsval :=
  default JUndefined (get v k).

(** [a[0]] and [a.length] of an array. *)
Definition first (v : jsval) : jsval :=
  match v with JArr (x :: _) => x | _ => JUndefined end.

Definition arr_length (v : jsval) : nat :=
  match v with JArr l => length l | _ => 0 end.

(** [String(v)], also the conversion of a template literal; an array
    converts by [join(",")], where [undefined] and [null] elements give
    the empty string. *)
Fixpoint ToString (v : jsval) : string :=
  match v with
  | JUndefined => "undefined"
  | JNull => "null"
  | JBool true => "true"
  | JBool false => "false"
  | JNum n => pretty n
  | JStr s => s
  | JArr l =>
      String.concat ","
        (map (λ e, match e with
                   | JUndefined | JNull => EmptyString
                   | _ => ToString e
                   end) l)
  | JObj _ => "[object Object]"
  end.

Definition join_elem (e : jsval) : string :=
  match e with JUndefined | JNull => EmptyString | _ => ToString e end.

(** [a.join(sep)] *)
Definition join (sep : string) (l : list jsval) : string :=
  String.concat sep (map join_elem l).

(** [s.trim()] *)
Definition trim_units (s : list ascii) : list ascii :=
  rev (drop_class is_space (rev (drop_class is_space s))).

Definition trim (s : string) : string :=
  string_of_list_ascii (trim_units (list_ascii_of_string s)).

(** [s.startsWith(p)] *)
Definition startsWith (s p : string) : bool := String.prefix p s.

End Js.

Import Js.

(** ** The script's helpers *)

Definition FIELD_IDS : list string :=
  [ "severity"; "sdk-version"; "sdk-version-other"; "android-version";
    "device"; "gradle-version"; "kotlin-version"; "steps-to-reproduce";
    "expected-behavior"; "actual-behavior"; "logs"; "additional-context";
    "confirmations" ].

Definition isMissing (v : jsval) : bool :=
  if nullish v then true
  else if isArray v then Nat.eqb (arr_length v) 0
  else if is_string v then Nat.eqb (String.length (trim (ToString v))) 0
  else if is_object v then
    if isArray (get_or_undef v "selected") && isArray (get_or_undef v "unselected")
    then Nat.eqb (arr_length (get_or_undef v "selected")) 0
         && Nat.eqb (arr_length (get_or_undef v "unselected")) 0
    else false
  else false.

Definition normalizeValue (v : jsval) : jsval :=
  match v with
  | JArr l => JStr (join ", " l)
  | _ =>
      if is_object v && truthy v && isArray (get_or_undef v "selected")
      then JObj [ ("selected", get_or_undef v "selected");
                  ("unselected", get_or_undef v "unselected") ]
      else JStr (ToString v)
  end.

Definition missing_text (id : string) : string :=
  "Field " +:+ id +:+ " wasn't entered.".

(** [form] is the object returned by the form parser. *)
Definition valueOrMissing (form : list (string * jsval)) (id : string) : jsval :=
  let v := obj_get form id in
  if isMissing v then JStr (missing_text id) else normalizeValue v.

Definition sanitizeLabel (s : jsval) : string := sanitize_string (ToString s).

(** ** Priority, effective SDK version, labels *)

Definition severity (form : list (string * jsval)) : jsval :=
  if isArray (obj_get form "severity") then first (obj_get form "severity")
  else JUndefined.

Definition isP1 (form : list (string * jsval)) : bool :=
  match severity form with
  | JStr s => startsWith s "Major functionality not working"
  | _ => false
  end.

Definition jiraPriorityName (form : list (string * jsval)) : string :=
  if isP1 form then "High" else "Medium".

Definition sdkVersion (form : list (string * jsval)) : jsval :=
  if isArray (obj_get form "sdk-version") then first (obj_get form "sdk-version")
  else JUndefined.

Definition sdkVersionOther (form : list (string * jsval)) : jsval :=
  obj_get form "sdk-version-other".

Definition effectiveSdkVersion (form : list (string * jsval)) : jsval :=
  if strict_eq_str (sdkVersion form) "Other (specify below)"
  then coalesce (sdkVersionOther form) (JStr "Other")
  else coalesce (sdkVersion form) (JStr "unknown").

(** A JavaScript [Set] of strings keeps its members in insertion order;
    adding a member that is already there changes nothing. *)
Module StrSet.

Definition add (s : list string) (x : string) : list string :=
  if bool_decide (x ∈ s) then s else s ++ [x].

(** [new Set(iterable)] *)
Definition of_list (l : list string) : list string := fold_left add l [].

(** [Array.from(set)] *)
Definition to_list (s : list string) : list string := s.

End StrSet.

(** [ghLabels] is the list of label names left by [filter(Boolean)]. *)
Definition label_candidates (issueNumber effective : jsval) (ghLabels : list jsval)
    : list string :=
  [ "cmp"; "android"; "source-github";
    "gh-issue-" +:+ ToString issueNumber;
    "sdk-" +:+ sanitizeLabel effective ]
  ++ map sanitizeLabel ghLabels.

Definition jiraLabels (issueNumber effective : jsval) (ghLabels : list jsval)
    : list string :=
  take 50 (StrSet.to_list (StrSet.of_list (label_candidates issueNumber effective ghLabels))).

(** ** Effects: the trace of a run and thrown errors *)

Record request := {
  req_url : string;
  req_method : string;
  req_headers : list (string * string);
  req_body : string;
}.

Record response := {
  res_status : Z;
  res_text : string;
}.

(** [res.ok] *)
Definition res_ok (r : response) : bool :=
  (200 <=? res_status r)%Z && (res_status r <=? 299)%Z.

Inductive event : Type :=
| EvReadFile (path : string)
| EvLog (line : string)
| EvFetch (req : request).

Inductive exn : Type :=
| Error (msg : string)
| TypeError (msg : string)
| SyntaxError (msg : string)
| SystemError (msg : string)
| ParserError.

Inductive outcome (A : Type) : Type :=
| Returned (a : A)
| Thrown (e : exn).
Arguments Returned {A} a.
Arguments Thrown {A} e.

(** A computation extends the trace of events so far and returns or throws. *)
Definition M (A : Type) : Type := list event → list event * outcome A.

Global Instance M_ret : MRet M := λ A a tr, (tr, Returned a).
Global Instance M_bind : MBind M := λ A B f m tr,
  match m tr with
  | (tr', Returned a) => f a tr'
  | (tr', Thrown e) => (tr', Thrown e)
  end.

Definition throw {A} (e : exn) : M A := λ tr, (tr, Thrown e).
Definition emit (e : event) : M unit := λ tr, (tr ++ [e], Returned tt).

(** A value that may be a TypeError: [None] throws. *)
Definition or_type_error {A} (msg : string) (o : option A) : M A :=
  match o with Some a => mret a | None => throw (TypeError msg) end.

Definition is_fetch (e : event) : bool :=
  match e with EvFetch _ => true | _ => false end.
Definition is_read (e : event) : bool :=
  match e with EvReadFile _ => true | _ => false end.

Definition fetches (tr : list event) : list request :=
  omap (λ e, match e with EvFetch r => Some r | _ => None end) tr.

(** What a run finds around it: the environment variables, the files, and
    the reply of the network to the n-th request of the run ([None]: the
    request fails without a response). *)
Record World := {
  env : gmap string string;
  files : gmap string string;
  network : nat → request → option response;
}.

Definition process_env (w : World) (name : string) : jsval :=
  match env w !! name with Some v => JStr v | None => JUndefined end.

Definition console_log (line : string) : M unit := emit (EvLog line).

(** [fs.readFileSync(path, "utf8")]: a path that is not a string is refused
    before any file is opened. *)
Definition readFileSync (w : World) (path : jsval) : M string :=
  match path with
  | JStr p =>
      _ ← emit (EvReadFile p);
      match files w !! p with
      | Some text => mret text
      | None => throw (SystemError "ENOENT")
      end
  | _ => throw (TypeError "ERR_INVALID_ARG_TYPE")
  end.

Definition fetch (w : World) (req : request) : M response := λ tr,
  match network w (length (fetches tr)) req with
  | Some res => (tr ++ [EvFetch req], Returned res)
  | None => (tr ++ [EvFetch req], Thrown (TypeError "fetch failed"))
  end.

Definition requiredEnv (w : World) (name : string) : M jsval :=
  let v := process_env w name in
  if negb (truthy v) then throw (Error ("Missing required env var: " +:+ name))
  else mret v.

(** ** Atlassian Document Format helpers *)

Definition adfText (text : jsval) : jsval :=
  JObj [ ("type", JStr "text"); ("text", JStr (ToString text)) ].

Definition adfParagraph (text : jsval) : jsval :=
  JObj [ ("type", JStr "paragraph"); ("content", JArr [adfText text]) ].

Definition adfHeading (text : jsval) (level : Z) : jsval :=
  JObj [ ("type", JStr "heading");
         ("attrs", JObj [ ("level", JNum level) ]);
         ("content", JArr [adfText text]) ].

Definition adfCodeBlock (code : jsval) (language : string) : jsval :=
  JObj [ ("type", JStr "codeBlock");
         ("attrs", JObj [ ("language", JStr language) ]);
         ("content",
          JArr [ JObj [ ("type", JStr "text");
                        ("text", JStr (ToString (coalesce code (JStr EmptyString)))) ] ]) ].

Definition slash : ascii := "/"%char.

(** The line feed of the source's [\n]. *)
Definition nl : string := String (ascii_of_nat 10) EmptyString.

(** [s.split("/")] *)
Fixpoint split_go (cur : list ascii) (s : list ascii) : list (list ascii) :=
  match s with
  | [] => [rev cur]
  | c :: s' =>
      if Ascii.eqb c slash then rev cur :: split_go [] s'
      else split_go (c :: cur) s'
  end.

Definition split_slash (s : string) : list jsval :=
  map (λ part, JStr (string_of_list_ascii part)) (split_go [] (list_ascii_of_string s)).

(** [s.replace(/\/$/, '')]: one trailing slash goes. *)
Definition strip_trailing_slash (s : string) : string :=
  string_of_list_ascii
    (replace_first (RSeq (RClass (Ascii.eqb slash)) REol) [] true
       (list_ascii_of_string s)).

(** Built-ins of the runtime and the form parser of the imported package:
    [JSON.parse] ([None]: SyntaxError), [JSON.stringify] with its indent,
    [Number], base64 encoding of a buffer, and [parseIssue] ([None]: the
    parser throws). *)
Record Runtime := {
  JSON_parse : string → option jsval;
  JSON_stringify : jsval → nat → string;
  ToNumber : jsval → jsval;
  base64 : string → string;
  parseIssue : jsval → string → option (list (string * jsval));
}.

Section Script.

Variable rt : Runtime.

Definition fieldLog (form : list (string * jsval)) : list (string * jsval) :=
  map (λ id, (id, valueOrMissing form id)) FIELD_IDS.

(** The text shown for a field: the value itself when it is a string, its
    JSON text otherwise. *)
Definition field_line (log : list (string * jsval)) (id : string) : jsval :=
  adfParagraph
    (JStr (id +:+ ": " +:+
           (if is_string (obj_get log id) then ToString (obj_get log id)
            else JSON_stringify rt (obj_get log id) 0))).

Definition logs_block (log : list (string * jsval)) : jsval :=
  let logs := obj_get log "logs" in
  if is_string logs && startsWith (ToString logs) "Field "
  then adfParagraph logs
  else adfCodeBlock
         (if is_string logs then logs else JStr (JSON_stringify rt logs 2))
         "shell".

Definition descriptionContent (issueNumber issueAuthor issueUrl : jsval)
    (log : list (string * jsval)) : list jsval :=
  [ adfHeading (JStr "GitHub Issue") 2;
    adfParagraph (JStr ("#" +:+ ToString issueNumber +:+ " by " +:+ ToString issueAuthor));
    adfParagraph issueUrl;
    adfHeading (JStr "Form Fields") 2 ]
  ++ map (field_line log)
       (filter (λ id, id ≠ "logs") FIELD_IDS)
  ++ [ adfHeading (JStr "logs") 2;
       logs_block log ].

Record Config := {
  JIRA_BASE_URL : string;
  JIRA_EMAIL : jsval;
  JIRA_API_TOKEN : jsval;
  JIRA_PROJECT_KEY : jsval;
  JIRA_ISSUE_TYPE : jsval;
  GITHUB_TOKEN : jsval;
}.

Definition jiraPayload (cfg : Config) (repoFull issueNumber issueTitle issueUrl : jsval)
    (priority : string) (labels : list string) (description : list jsval) : jsval :=
  JObj [
    ("fields", JObj [
      ("project", JObj [ ("key", JIRA_PROJECT_KEY cfg) ]);
      ("issuetype", JObj [ ("name", JIRA_ISSUE_TYPE cfg) ]);
      ("summary", JStr (trim ("[Android SDK] " +:+ ToString issueTitle)));
      ("priority", JObj [ ("name", JStr priority) ]);
      ("labels", JArr (map JStr labels));
      ("description", JObj [
        ("type", JStr "doc");
        ("version", JNum 1);
        ("content", JArr description) ]) ]);
    ("properties", JArr [
      JObj [ ("key", JStr "github.issue.url"); ("value", issueUrl) ];
      JObj [ ("key", JStr "github.issue.number"); ("value", ToNumber rt issueNumber) ];
      JObj [ ("key", JStr "github.repo"); ("value", repoFull) ] ]) ].

Definition jira_request (cfg : Config) (payload : jsval) : request :=
  {| req_url := JIRA_BASE_URL cfg +:+ "/rest/api/3/issue";
     req_method := "POST";
     req_headers :=
       [ ("Authorization",
          "Basic " +:+ base64 rt (ToString (JIRA_EMAIL cfg) +:+ ":" +:+ ToString (JIRA_API_TOKEN cfg)));
         ("Accept", "application/json");
         ("Content-Type", "application/json") ];
     req_body := JSON_stringify rt payload 0 |}.

Definition jiraCreateIssue (w : World) (cfg : Config) (payload : jsval) : M jsval :=
  res ← fetch w (jira_request cfg payload);
  let text := res_text res in
  if negb (res_ok res)
  then throw (Error ("Jira create issue failed (" +:+ pretty (res_status res) +:+ "): " +:+ text))
  else
    match JSON_parse rt text with
    | Some v => mret v
    | None => throw (SyntaxError "JSON.parse")
    end.

Definition comment_request (cfg : Config) (owner repo issueNumber : jsval)
    (body : string) : request :=
  {| req_url := "https://api.github.com/repos/" +:+ ToString owner +:+ "/" +:+
                ToString repo +:+ "/issues/" +:+ ToString issueNumber +:+ "/comments";
     req_method := "POST";
     req_headers :=
       [ ("Authorization", "Bearer " +:+ ToString (GITHUB_TOKEN cfg));
         ("Accept", "application/vnd.github+json") ];
     req_body := JSON_stringify rt (JObj [ ("body", JStr body) ]) 0 |}.

Definition ghCreateComment (w : World) (cfg : Config) (owner repo issueNumber : jsval)
    (body : string) : M unit :=
  res ← fetch w (comment_request cfg owner repo issueNumber body);
  let text := res_text res in
  if negb (res_ok res)
  then throw (Error ("GitHub comment failed (" +:+ pretty (res_status res) +:+ "): " +:+ text))
  else mret tt.

(** The two fixed texts; their few characters outside Latin-1 are kept as
    the bytes of the source file. *)
Definition ticketCreated (jiraKey : jsval) (jiraBrowseUrl : string) : string :=
  "✅ Created internal Jira ticket: **" +:+ ToString jiraKey +:+ "**" +:+ nl +:+ nl +:+
  jiraBrowseUrl +:+ nl +:+ nl +:+
  "<!-- jira-key:" +:+ ToString jiraKey +:+ " -->".

Definition commentBody : string :=
  "Thanks for the report — we’ve received it and will triage it internally." +:+ nl +:+ nl +:+
  "Our SDK engineering team has been notified and will follow this issue for updates." +:+ nl +:+ nl +:+
  "Please keep updates here (repro steps, logs, screenshots, or a minimal repro repo) so we can move faster.".

(** [(issue.labels ?? []).map(l => l.name).filter(Boolean)] *)
Definition ghLabels_of (issue : jsval) : option (list jsval) :=
  match coalesce (get_or_undef issue "labels") (JArr []) with
  | JArr ls => names ← mapM (λ l, get l "name") ls; Some (filter (λ n, truthy n = true) names)
  | _ => None
  end.

(** [issue.user?.login ?? "unknown"] *)
Definition issueAuthor_of (issue : jsval) : jsval :=
  let user := get_or_undef issue "user" in
  coalesce (if nullish user then JUndefined else get_or_undef user "login")
           (JStr "unknown").

(** The module body, top to bottom. *)
Definition main (w : World) : M unit :=
  ISSUE_TEMPLATE_PATH ← requiredEnv w "ISSUE_TEMPLATE_PATH";
  base_url ← requiredEnv w "JIRA_BASE_URL";
  email ← requiredEnv w "JIRA_EMAIL";
  token ← requiredEnv w "JIRA_API_TOKEN";
  let project_key := coalesce (process_env w "JIRA_PROJECT_KEY") (JStr "SDK") in
  let issue_type := coalesce (process_env w "JIRA_ISSUE_TYPE") (JStr "Bug") in
  gh_token ← requiredEnv w "GITHUB_TOKEN";
  let cfg := {| JIRA_BASE_URL := strip_trailing_slash (ToString base_url);
                JIRA_EMAIL := email;
                JIRA_API_TOKEN := token;
                JIRA_PROJECT_KEY := project_key;
                JIRA_ISSUE_TYPE := issue_type;
                GITHUB_TOKEN := gh_token |} in
  event_text ← readFileSync w (process_env w "GITHUB_EVENT_PATH");
  GH_EVENT ← match JSON_parse rt event_text with
             | Some v => mret v
             | None => throw (SyntaxError "JSON.parse")
             end;
  issue ← or_type_error "Cannot read properties (reading 'issue')" (get GH_EVENT "issue");
  if negb (truthy issue) then throw (Error "No issue in event payload.") else
  let repoFull := process_env w "GITHUB_REPOSITORY" in
  parts ← match repoFull with
          | JStr s => mret (split_slash s)
          | _ => throw (TypeError "Cannot read properties of undefined (reading 'split')")
          end;
  let owner := default JUndefined (parts !! 0%nat) in
  let repo := default JUndefined (parts !! 1%nat) in
  let issueNumber := get_or_undef issue "number" in
  let issueTitle := coalesce (get_or_undef issue "title") (JStr EmptyString) in
  let issueBody := coalesce (get_or_undef issue "body") (JStr EmptyString) in
  let issueUrl := coalesce (get_or_undef issue "html_url") (JStr EmptyString) in
  let issueAuthor := issueAuthor_of issue in
  ghLabels ← or_type_error "issue.labels" (ghLabels_of issue);
  templateYaml ← readFileSync w ISSUE_TEMPLATE_PATH;
  form ← match parseIssue rt issueBody templateYaml with
         | Some f => mret f
         | None => throw ParserError
         end;
  let log := fieldLog form in
  _ ← console_log "=== Parsed Issue Form Fields (by ID) ===";
  _ ← console_log (JSON_stringify rt (JObj log) 2);
  let labels := jiraLabels issueNumber (effectiveSdkVersion form) ghLabels in
  let description := descriptionContent issueNumber issueAuthor issueUrl log in
  let payload := jiraPayload cfg repoFull issueNumber issueTitle issueUrl
                   (jiraPriorityName form) labels description in
  created ← jiraCreateIssue w cfg payload;
  jiraKey ← or_type_error "Cannot read properties (reading 'key')" (get created "key");
  let jiraBrowseUrl := JIRA_BASE_URL cfg +:+ "/browse/" +:+ ToString jiraKey in
  _ ← console_log ("Created Jira issue: " +:+ ToString jiraKey +:+ " (" +:+ jiraBrowseUrl +:+ ")");
  _ ← console_log (ticketCreated jiraKey jiraBrowseUrl);
  _ ← ghCreateComment w cfg owner repo issueNumber commentBody;
  console_log "Commented Jira link back on GitHub issue.".

(** A run starts from the empty trace. *)
Definition run (w : World) : list event * outcome unit := main w [].

End Script.

(** ** The specification's reading of sanitizeLabel

    The five steps as the specification words them, written directly on the
    sequence of code units, without regular expressions. *)

Module SanitizeSpec.

(** Lowercase. *)
Definition lowercase (s : list ascii) : list ascii := map to_lower s.

(** Collapse each run of code units of a class into a single hyphen;
    [in_run] tells that the previous code unit was of the class. *)
Fixpoint collapse_runs (p : ascii → bool) (in_run : bool) (s : list ascii)
    : list ascii :=
  match s with
  | [] => []
  | c :: s' =>
      if p c then
        if in_run then collapse_runs p true s'
        else hyphen :: collapse_runs p true s'
      else c :: collapse_runs p false s'
  end.

(** Replace every code unit outside [[a-z0-9-_]] with a hyphen. *)
Definition replace_outside (s : list ascii) : list ascii :=
  map (λ c, if is_label_char c then c else hyphen) s.

(** Strip all leading and all trailing hyphens. *)
Definition strip_hyphens (s : list ascii) : list ascii :=
  rev (drop_class is_hyphen (rev (drop_class is_hyphen s))).

Definition sanitize (s : string) : string :=
  string_of_list_ascii
    (strip_hyphens
      (collapse_runs is_hyphen false
        (replace_outside
          (collapse_runs is_space false
            (lowercase (list_ascii_of_string s)))))).

End SanitizeSpec.

(** ** Auxiliary notions of the proofs *)

(** What [/^-|-$/g] leaves of a string after its first code unit: the last
    code unit goes when it is a hyphen. *)
Fixpoint drop_last_hyphen (s : list ascii) : list ascii :=
  match s with
  | [] => []
  | c :: s' =>
      match s' with
      | [] => if is_hyphen c then [] else [c]
      | _ :: _ => c :: drop_last_hyphen s'
      end
  end.

(** No two hyphens in a row. *)
Fixpoint no_double_hyphen (s : list ascii) : bool :=
  match s with
  | [] => true
  | c :: s' =>
      match s' with
      | [] => true
      | d :: _ => negb (is_hyphen c && is_hyphen d) && no_double_hyphen s'
      end
  end.

(** Position of the first occurrence of a label in a list. *)
Fixpoint index_of (x : string) (l : list string) : option nat :=
  match l with
  | [] => None
  | y :: l' => if String.eqb y x then Some 0 else S <$> index_of x l'
  end.

(** The five labels every ticket starts with. *)
Definition base_labels (issueNumber effective : jsval) : list string :=
  [ "cmp"; "android"; "source-github";
    "gh-issue-" +:+ ToString issueNumber;
    "sdk-" +:+ sanitizeLabel effective ].

(** Sixty GitHub label names, distinct after sanitization: ["Label 1"] to
    ["Label 60"]. *)
Definition sixty_labels : list jsval :=
  map (λ i : nat, JStr ("Label " +:+ pretty i)) (seq 1 60).

(** A blank string: nothing but whitespace, the empty string included. *)
Definition blank (s : string) : Prop :=
  Forall (λ c, is_space c = true) (list_ascii_of_string s).

(** The values [isMissing] is specified to reject. *)
Definition missing_shape (v : jsval) : Prop :=
  v = JUndefined ∨ v = JNull ∨ v = JArr [] ∨
  (∃ s, v = JStr s ∧ blank s) ∨
  (∃ props, v = JObj props ∧
            obj_get props "selected" = JArr [] ∧
            obj_get props "unselected" = JArr []).

(** An object has the checkbox shape when both sub-sequences are arrays. *)
Definition checkbox_shape (props : list (string * jsval)) : Prop :=
  isArray (obj_get props "selected") = true ∧
  isArray (obj_get props "unselected") = true.

(** The severity that marks a P1, as a condition on the parsed form. *)
Definition major_severity (form : list (string * jsval)) : Prop :=
  ∃ s rest tail,
    obj_get form "severity" = JArr (JStr s :: rest) ∧
    s = "Major functionality not working" +:+ tail.

(** The variables read through [requiredEnv], in reading order. *)
Definition required_names : list string :=
  [ "ISSUE_TEMPLATE_PATH"; "JIRA_BASE_URL"; "JIRA_EMAIL"; "JIRA_API_TOKEN";
    "GITHUB_TOKEN" ].

(** The variables of a list read before [name]. *)
Fixpoint names_before (name : string) (l : list string) : list string :=
  match l with
  | [] => []
  | n :: l' => if String.eqb n name then [] else n :: names_before name l'
  end.

(** The first variable, in reading order, that is absent or empty. *)
Definition first_unset (w : World) : option string :=
  head (filter (λ n, truthy (process_env w n) = false) required_names).

Definition missing_env_error (name : string) : exn :=
  Error ("Missing required env var: " +:+ name).

(** The error kinds of the specification, recognised by their message. *)
Definition ticket_creation_error (res : response) : exn :=
  Error ("Jira create issue failed (" +:+ pretty (res_status res) +:+ "): " +:+ res_text res).

Definition is_ticket_creation_error (e : exn) : Prop :=
  ∃ status text, e = Error ("Jira create issue failed (" +:+ status +:+ "): " +:+ text).

Definition is_comment_post_error (e : exn) : Prop :=
  ∃ status text, e = Error ("GitHub comment failed (" +:+ status +:+ "): " +:+ text).

(** A specification of a computation in terms of the requests sent so far:
    started after requests satisfying [P], it returns with [Q] or throws
    with [E]. *)
Definition triple {A} (P : list request → Prop) (m : M A)
    (Q : A → list request → Prop) (E : exn → list request → Prop) : Prop :=
  ∀ tr, P (fetches tr) →
    match m tr with
    | (tr', Returned a) => Q a (fetches tr')
    | (tr', Thrown e) => E e (fetches tr')
    end.

(** The same surroundings with other environment variables. *)
Definition with_env (w : World) (e : gmap string string) : World :=
  {| env := e; files := files w; network := network w |}.

(** Stages of a run, told from the requests sent so far: none yet; the
    ticket request answered with success; the comment request sent after
    that. *)
Definition no_request (fs : list request) : Prop := fs = [].

Definition ticket_created (rt : Runtime) (w : World) (fs : list request) : Prop :=
  ∃ cfg payload res,
    fs = [jira_request rt cfg payload] ∧
    network w 0 (jira_request rt cfg payload) = Some res ∧
    res_ok res = true.

Definition comment_requested (rt : Runtime) (w : World) (fs : list request) : Prop :=
  ∃ cfg payload res cfg' owner repo n body,
    fs = [jira_request rt cfg payload; comment_request rt cfg' owner repo n body] ∧
    network w 0 (jira_request rt cfg payload) = Some res ∧
    res_ok res = true.

(** What may be thrown at which stage. *)
Definition failure_stage (rt : Runtime) (w : World) (e : exn) (fs : list request) : Prop :=
  (fs = [] ∧ ¬ is_ticket_creation_error e ∧ ¬ is_comment_post_error e) ∨
  (∃ cfg payload,
     fs = [jira_request rt cfg payload] ∧
     ¬ is_comment_post_error e ∧
     ∀ res, network w 0 (jira_request rt cfg payload) = Some res →
            res_ok res = false → e = ticket_creation_error res) ∨
  comment_requested rt w fs.

(** A runtime and a few worlds for the closed examples: every required
    variable set; the same without GITHUB_REPOSITORY; the same with an empty
    JIRA_EMAIL, and without JIRA_EMAIL.  Of the runtime only [JSON_parse]
    matters to the examples: it parses the one event text they use, an
    object with an issue numbered 42, and refuses any other text. *)
Definition dquote : string := String (ascii_of_nat 34) EmptyString.

Definition event_json : string :=
  "{" +:+ dquote +:+ "issue" +:+ dquote +:+ ":{" +:+
  dquote +:+ "number" +:+ dquote +:+ ":42}}".

Definition rt0 : Runtime :=
  {| JSON_parse := λ text,
       if String.eqb text event_json
       then Some (JObj [ ("issue", JObj [ ("number", JNum 42) ]) ])
       else None;
     JSON_stringify := λ _ _, "{}";
     ToNumber := λ v, v;
     base64 := λ s, s;
     parseIssue := λ _ _, Some [] |}.

Definition env0 : gmap string string :=
  list_to_map
    [ ("ISSUE_TEMPLATE_PATH", "bug.yml"); ("JIRA_BASE_URL", "https://jira.example/");
      ("JIRA_EMAIL", "bot@example.com"); ("JIRA_API_TOKEN", "secret");
      ("GITHUB_TOKEN", "ghs"); ("GITHUB_EVENT_PATH", "event.json");
      ("GITHUB_REPOSITORY", "osano/sdk") ].

Definition world0 : World :=
  {| env := env0;
     files := list_to_map [ ("event.json", event_json); ("bug.yml", "name: Bug") ];
     network := λ _ _, None |}.

Definition world_no_repository : World :=
  with_env world0 (delete "GITHUB_REPOSITORY" env0).

Definition world_empty_email : World :=
  with_env world0 (<["JIRA_EMAIL" := EmptyString]> env0).

Definition world_no_email : World :=
  with_env world0 (delete "JIRA_EMAIL" env0).

(** The same surroundings with a tracker that answers every request with
    status 500. *)
Definition refusal : response :=
  {| res_status := 500; res_text := "Internal error" |}.

Definition world_jira_refuses : World :=
  {| env := env0; files := files world0; network := λ _ _, Some refusal |}.

(** The label characters other than the hyphen: [[a-z0-9_]]. *)
Definition is_word (c : ascii) : bool := is_label_char c && negb (is_hyphen c).

(** [s.trimEnd()]: the text without its trailing whitespace. *)
Definition trim_end (s : string) : string :=
  string_of_list_ascii (rev (drop_class is_space (rev (list_ascii_of_string s)))).

(** The [fields.summary] of a ticket payload. *)
Definition summary_of (payload : jsval) : jsval :=
  get_or_undef (get_or_undef payload "fields") "summary".

(** The kinds of events, and the kinds of the events of a complete run, in
    order: the two file reads, the two lines of the field dump, the ticket
    request, the two lines about the ticket, the comment request, the final
    line. *)
Inductive ekind : Type := KRead | KLog | KFetch.

Definition kind_of (e : event) : ekind :=
  match e with
  | EvReadFile _ => KRead
  | EvLog _ => KLog
  | EvFetch _ => KFetch
  end.

Definition run_shape : list ekind :=
  [ KRead; KRead; KLog; KLog; KFetch; KLog; KLog; KFetch; KLog ].

(** The trace so far is made of the first [n] events of a complete run. *)
Definition at_step (n : nat) (tr : list event) : Prop :=
  map kind_of tr = take n run_shape.

Definition stopped_early (e : exn) (tr : list event) : Prop :=
  ∃ n, n ≤ 8 ∧ at_step n tr.

(** A specification of a computation in terms of the whole trace. *)
Definition trace_triple {A} (P : list event → Prop) (m : M A)
    (Q : A → list event → Prop) (E : exn → list event → Prop) : Prop :=
  ∀ tr, P tr →
    match m tr with
    | (tr', Returned a) => Q a tr'
    | (tr', Thrown e) => E e tr'
    end.

(** The configuration the script reads from the environment (lines 13-20
    of the script), once the required variables are there. *)
Definition config_of (w : World) : Config :=
  {| JIRA_BASE_URL := strip_trailing_slash (ToString (process_env w "JIRA_BASE_URL"));
     JIRA_EMAIL := process_env w "JIRA_EMAIL";
     JIRA_API_TOKEN := process_env w "JIRA_API_TOKEN";
     JIRA_PROJECT_KEY := coalesce (process_env w "JIRA_PROJECT_KEY") (JStr "SDK");
     JIRA_ISSUE_TYPE := coalesce (process_env w "JIRA_ISSUE_TYPE") (JStr "Bug");
     GITHUB_TOKEN := process_env w "GITHUB_TOKEN" |}.

(** The requests a run may have sent: none, the ticket request alone, or
    the ticket request and then the comment request with the fixed text. *)
Definition requests_of_run (rt : Runtime) (w : World) (fs : list request) : Prop :=
  fs = [] ∨
  (∃ payload, fs = [jira_request rt (config_of w) payload]) ∨
  (∃ payload owner repo n,
     fs = [ jira_request rt (config_of w) payload;
            comment_request rt (config_of w) owner repo n commentBody ]).

(** A runtime that also parses the reply of the tracker, and a world where
    both requests are answered with success. *)
Definition ticket_json : string :=
  "{" +:+ dquote +:+ "key" +:+ dquote +:+ ":" +:+ dquote +:+ "SDK-7" +:+ dquote +:+ "}".

Definition rt1 : Runtime :=
  {| JSON_parse := λ text,
       if String.eqb text event_json
       then Some (JObj [ ("issue", JObj [ ("number", JNum 42) ]) ])
       else if String.eqb text ticket_json
       then Some (JObj [ ("key", JStr "SDK-7") ])
       else None;
     JSON_stringify := λ _ _, "{}";
     ToNumber := λ v, v;
     base64 := λ s, s;
     parseIssue := λ _ _, Some [] |}.

Definition world_success : World :=
  {| env := env0;
     files := files world0;
     network := λ n _,
       match n with
       | O => Some {| res_status := 201; res_text := ticket_json |}
       | S _ => Some {| res_status := 201; res_text := "{}" |}
       end |}.

(** An event without an issue, and a world whose event file holds it. *)
Definition rt_no_issue : Runtime :=
  {| JSON_parse := λ text, if String.eqb text "{}" then Some (JObj []) else None;
     JSON_stringify := λ _ _, "{}";
     ToNumber := λ v, v;
     base64 := λ s, s;
     parseIssue := λ _ _, Some [] |}.

Definition world_no_issue : World :=
  {| env := env0;
     files := list_to_map [ ("event.json", "{}"); ("bug.yml", "name: Bug") ];
     network := λ _ _, None |}.

(** A world whose tracker answers with a success that is not JSON. *)
Definition world_reply_not_json : World :=
  {| env := env0;
     files := files world0;
     network := λ _ _, Some {| res_status := 200; res_text := "<html>ok</html>" |} |}.

(** ** Properties of the regular-expression engine *)

Section RegexFacts.

Implicit Types (p : ascii → bool) (s : list ascii).

Lemma drop_class_length p s : length (drop_class p s) ≤ length s.
Proof.
  induction s as [|c s IH]; simpl; [lia|].
  destruct (p c); simpl; lia.
Qed.

Lemma drop_class_suffix p s :
  drop (length s - length (drop_class p s)) s = drop_class p s.
Proof.
  induction s as [|c s IH]; simpl; [done|].
  destruct (p c) eqn:Hc.
  - pose proof (drop_class_length p s).
    replace (S (length s) - length (drop_class p s))
      with (S (length s - length (drop_class p s))) by lia.
    simpl. exact IH.
  - simpl. by rewrite Nat.sub_diag.
Qed.

Lemma plus_k_some p s :
  plus_k p (λ rest, Some rest) s =
  match s with
  | c :: s' => if p c then Some (drop_class p s') else None
  | [] => None
  end.
Proof.
  induction s as [|c s IH]; simpl; [done|].
  destruct (p c); [|done].
  rewrite IH. destruct s as [|d t]; simpl; [done|].
  by destruct (p d).
Qed.

Lemma replace_go_skip r rep n s :
  n ≤ length s →
  replace_go r rep false n s = replace_go r rep false 0 (drop n s).
Proof.
  revert s. induction n as [|n IH]; intros s Hn; [done|].
  destruct s as [|c s]; simpl in Hn; [lia|].
  simpl. apply IH. lia.
Qed.

(** A global replacement of [p+] by a hyphen collapses each run. *)
Lemma replace_plus_collapse p s b :
  replace_go (RPlus p) [hyphen] b 0 s = SanitizeSpec.collapse_runs p false s.
Proof.
  remember (length s) as n eqn:Hlen.
  revert s b Hlen. induction (lt_wf n) as [n _ IH]; intros s b ->.
  destruct s as [|c s]; [done|].
  cbn [replace_go]. unfold exec. cbn [rmatch]. rewrite plus_k_some.
  cbn [SanitizeSpec.collapse_runs].
  destruct (p c) eqn:Hc.
  - pose proof (drop_class_length p s) as Hle.
    replace (length (c :: s) - length (drop_class p s))
      with (S (length s - length (drop_class p s))) by (simpl; lia).
    rewrite replace_go_skip by lia.
    rewrite drop_class_suffix. cbn [app]. f_equal.
    rewrite (IH (length (drop_class p s))) with (s := drop_class p s) (b := false);
      [|simpl; lia|done].
    clear IH Hle Hc. induction s as [|d t IHt]; [done|].
    simpl. destruct (p d) eqn:Hd; [exact IHt|].
    simpl. by rewrite Hd.
  - f_equal. eapply IH; [|done]. simpl. lia.
Qed.

(** A global replacement of a one-unit class by a hyphen is a map. *)
Lemma replace_class_map p s b :
  replace_go (RClass p) [hyphen] b 0 s = map (λ c, if p c then hyphen else c) s.
Proof.
  revert b. induction s as [|c s IH]; intros b; [done|].
  cbn [replace_go]. unfold exec. cbn [rmatch map].
  destruct (p c).
  - replace (length (c :: s) - length s) with 1 by (simpl; lia).
    cbn [app]. by rewrite IH.
  - by rewrite IH.
Qed.

(** Past the start of the input only the alternative [-$] can match. *)
Lemma replace_edge_tail s :
  replace_go re_edge_hyphen [] false 0 s = drop_last_hyphen s.
Proof.
  induction s as [|c s IH]; [done|].
  cbn [replace_go]. unfold exec, re_edge_hyphen. cbn [rmatch].
  fold re_edge_hyphen.
  destruct (is_hyphen c) eqn:Hc, s as [|d t].
  - simpl. by rewrite Hc.
  - change (drop_last_hyphen (c :: d :: t)) with (c :: drop_last_hyphen (d :: t)).
    by rewrite IH.
  - simpl. by rewrite Hc.
  - change (drop_last_hyphen (c :: d :: t)) with (c :: drop_last_hyphen (d :: t)).
    by rewrite IH.
Qed.

Lemma replace_edge_all s :
  replace_all re_edge_hyphen [] s =
  match s with
  | [] => []
  | c :: s' => if is_hyphen c then drop_last_hyphen s' else c :: drop_last_hyphen s'
  end.
Proof.
  destruct s as [|c s]; [done|].
  unfold replace_all. cbn [replace_go]. unfold exec, re_edge_hyphen. cbn [rmatch].
  destruct (is_hyphen c) eqn:Hc.
  - replace (length (c :: s) - length s) with 1 by (simpl; lia).
    cbn [app]. apply replace_edge_tail.
  - f_equal. apply replace_edge_tail.
Qed.

Lemma drop_last_hyphen_snoc s d :
  drop_last_hyphen (s ++ [d]) = if is_hyphen d then s else s ++ [d].
Proof.
  induction s as [|c s IH]; [done|].
  cbn [app drop_last_hyphen]. rewrite IH.
  destruct s as [|e t]; simpl; by destruct (is_hyphen d).
Qed.

Lemma no_double_hyphen_app_l s t :
  no_double_hyphen (s ++ t) = true → no_double_hyphen s = true.
Proof.
  induction s as [|c s IH]; [done|].
  destruct s as [|d s]; [done|].
  cbn [app no_double_hyphen]. intros [? ?]%andb_prop.
  apply andb_true_intro. split; [done|]. by apply IH.
Qed.

Lemma no_double_hyphen_last s e d :
  no_double_hyphen (s ++ [e; d]) = true → is_hyphen e && is_hyphen d = false.
Proof.
  induction s as [|c s IH].
  - simpl. rewrite andb_true_r. by intros ?%negb_true_iff.
  - destruct s as [|c' s]; cbn [app no_double_hyphen]; intros [_ ?]%andb_prop; by apply IH.
Qed.

(** On a string without doubled hyphens, dropping all trailing hyphens
    drops at most one. *)
Lemma strip_trailing_no_double s :
  no_double_hyphen s = true →
  rev (drop_class is_hyphen (rev s)) = drop_last_hyphen s.
Proof.
  intros Hs. destruct s as [|d s _] using rev_ind; [done|].
  rewrite drop_last_hyphen_snoc, rev_unit. cbn [drop_class].
  destruct (is_hyphen d) eqn:Hd; [|by rewrite <- rev_unit, rev_involutive].
  destruct s as [|e s _] using rev_ind; [done|].
  rewrite <- app_assoc in Hs. apply no_double_hyphen_last in Hs.
  rewrite Hd, andb_true_r in Hs.
  rewrite rev_unit. cbn [drop_class]. rewrite Hs.
  by rewrite <- rev_unit, rev_involutive.
Qed.

Lemma strip_edges_no_double s :
  no_double_hyphen s = true →
  replace_all re_edge_hyphen [] s = SanitizeSpec.strip_hyphens s.
Proof.
  intros Hs. rewrite replace_edge_all. unfold SanitizeSpec.strip_hyphens.
  destruct s as [|c s]; [done|].
  cbn [drop_class]. destruct (is_hyphen c) eqn:Hc.
  - assert (drop_class is_hyphen s = s) as ->.
    { destruct s as [|d t]; [done|]. cbn [no_double_hyphen] in Hs.
      apply andb_prop in Hs as [Hs _]. rewrite Hc in Hs. simpl in Hs.
      apply negb_true_iff in Hs. simpl. by rewrite Hs. }
    rewrite strip_trailing_no_double; [done|].
    destruct s as [|d t]; [done|]. cbn [no_double_hyphen] in Hs.
    by apply andb_prop in Hs as [_ Hs].
  - rewrite strip_trailing_no_double by done.
    destruct s as [|d t]; simpl; by rewrite ?Hc.
Qed.

Lemma collapse_hyphens_no_double s b :
  no_double_hyphen (SanitizeSpec.collapse_runs is_hyphen b s) = true ∧
  (b = true →
   match SanitizeSpec.collapse_runs is_hyphen b s with
   | c :: _ => is_hyphen c = false
   | [] => True
   end).
Proof.
  revert b. induction s as [|c s IH]; intros b; [done|].
  cbn [SanitizeSpec.collapse_runs].
  destruct (is_hyphen c) eqn:Hc.
  - destruct b; [apply IH|].
    destruct (IH true) as [Hnd Hhd]. split; [|done].
    destruct (SanitizeSpec.collapse_runs is_hyphen true s) as [|d t]; [done|].
    change (no_double_hyphen (hyphen :: d :: t))
      with (negb (is_hyphen hyphen && is_hyphen d) && no_double_hyphen (d :: t)).
    rewrite (Hhd eq_refl), Hnd. by rewrite andb_false_r.
  - destruct (IH false) as [Hnd _]. split; [|done].
    destruct (SanitizeSpec.collapse_runs is_hyphen false s) as [|d t]; [done|].
    change (no_double_hyphen (c :: d :: t))
      with (negb (is_hyphen c && is_hyphen d) && no_double_hyphen (d :: t)).
    by rewrite Hc, Hnd.
Qed.

End RegexFacts.

(** C8. For every string [s], [sanitizeLabel(s)] is the result of
    lowercasing [s], collapsing each run of whitespace into one hyphen,
    replacing every character outside [[a-z0-9-_]] with a hyphen, collapsing
    repeated hyphens into one and stripping the leading and trailing
    hyphens; and [sanitizeLabel("Galaxy S21 Ultra!")] is
    ["galaxy-s21-ultra"]. *)
Theorem sanitizeLabel_refines_spec :
  (∀ s : string, sanitizeLabel (JStr s) = SanitizeSpec.sanitize s) ∧
  sanitizeLabel (JStr "Galaxy S21 Ultra!") = "galaxy-s21-ultra".
Proof.
  split; [|by vm_compute].
  intros s. unfold sanitizeLabel, sanitize_string, SanitizeSpec.sanitize.
  cbn [ToString]. f_equal. unfold sanitize_units, toLowerCase, SanitizeSpec.lowercase.
  unfold replace_all at 2 3 4.
  unfold re_whitespace, re_hyphens, re_disallowed.
  rewrite !replace_plus_collapse, replace_class_map.
  rewrite strip_edges_no_double by apply collapse_hyphens_no_double.
  do 2 f_equal. unfold SanitizeSpec.replace_outside.
  apply map_ext. intros c. by destruct (is_label_char c).
Qed.

(** ** The insertion-ordered set of labels *)

Section LabelSet.

Implicit Types (l acc : list string) (x : string).

Lemma of_list_snoc l x :
  StrSet.of_list (l ++ [x]) = StrSet.add (StrSet.of_list l) x.
Proof. unfold StrSet.of_list. by rewrite fold_left_app. Qed.

Lemma elem_of_add acc x y : y ∈ StrSet.add acc x ↔ y ∈ acc ∨ y = x.
Proof.
  unfold StrSet.add. case_bool_decide as Hx.
  - split; [by left|]. intros [?| ->]; done.
  - rewrite elem_of_app, list_elem_of_singleton. done.
Qed.

Lemma elem_of_of_list l x : x ∈ StrSet.of_list l ↔ x ∈ l.
Proof.
  induction l as [|y l IH] using rev_ind.
  - done.
  - rewrite of_list_snoc, elem_of_add, IH, elem_of_app, list_elem_of_singleton. done.
Qed.

Lemma NoDup_of_list l : NoDup (StrSet.of_list l).
Proof.
  induction l as [|y l IH] using rev_ind.
  - constructor.
  - rewrite of_list_snoc. unfold StrSet.add. case_bool_decide as Hy; [done|].
    apply NoDup_app. split_and!; [done| |apply NoDup_singleton].
    intros z Hz ->%list_elem_of_singleton. done.
Qed.

Lemma of_list_NoDup_id l : NoDup l → StrSet.of_list l = l.
Proof.
  induction l as [|y l IH] using rev_ind; [done|].
  intros (Hl & Hy & _)%NoDup_app.
  rewrite of_list_snoc, IH by done. unfold StrSet.add.
  rewrite bool_decide_eq_false_2; [done|].
  intros Hin. apply (Hy y Hin). by apply list_elem_of_singleton.
Qed.

Lemma fold_add_prefix l acc : ∃ k, fold_left StrSet.add l acc = acc ++ k.
Proof.
  revert acc. induction l as [|y l IH]; intros acc; simpl.
  - exists []. by rewrite app_nil_r.
  - destruct (IH (StrSet.add acc y)) as [k ->]. unfold StrSet.add.
    case_bool_decide; [by exists k|].
    exists (y :: k). by rewrite <- app_assoc.
Qed.

Lemma of_list_length l : length (StrSet.of_list l) ≤ length l.
Proof.
  induction l as [|y l IH] using rev_ind; [done|].
  rewrite of_list_snoc, length_app. unfold StrSet.add. simpl.
  case_bool_decide; rewrite ?length_app; simpl; lia.
Qed.

(** A label among the first [n] candidates is among the first [n] members. *)
Lemma elem_of_take_of_list n l x :
  x ∈ take n l → x ∈ take n (StrSet.of_list l).
Proof.
  intros Hx. rewrite <- (take_drop n l) at 1.
  unfold StrSet.of_list. rewrite fold_left_app.
  destruct (fold_add_prefix (drop n l) (fold_left StrSet.add (take n l) [])) as [k ->].
  fold (StrSet.of_list (take n l)).
  assert (length (StrSet.of_list (take n l)) ≤ n) as Hlen.
  { etrans; [apply of_list_length|]. rewrite length_take. lia. }
  rewrite take_app, take_ge by done.
  apply elem_of_app. left. by apply elem_of_of_list.
Qed.

Lemma index_of_Some_lt x l i : index_of x l = Some i → l !! i = Some x.
Proof.
  revert i. induction l as [|y l IH]; intros i; simpl; [done|].
  destruct (String.eqb_spec y x) as [->|Hne].
  - by intros [= <-].
  - destruct (index_of x l) as [j|]; simpl; [|done].
    intros [= <-]. simpl. by apply IH.
Qed.

Lemma index_of_app_l x l k : x ∈ l → index_of x (l ++ k) = index_of x l.
Proof.
  induction l as [|y l IH]; [by intros ?%elem_of_nil|].
  simpl. destruct (String.eqb_spec y x) as [->|Hne]; [done|].
  intros [?|Hin]%elem_of_cons; [congruence|]. by rewrite IH.
Qed.

Lemma index_of_app_r x l : x ∉ l → index_of x (l ++ [x]) = Some (length l).
Proof.
  induction l as [|y l IH]; simpl.
  - by rewrite String.eqb_refl.
  - intros [Hne Hnin]%not_elem_of_cons.
    destruct (String.eqb_spec y x) as [->|_]; [done|]. by rewrite IH.
Qed.

Lemma index_of_elem x l : x ∈ l → ∃ i, index_of x l = Some i ∧ i < length l.
Proof.
  induction l as [|y l IH]; [by intros ?%elem_of_nil|].
  simpl. destruct (String.eqb_spec y x) as [->|Hne].
  - intros _. exists 0. split; [done|lia].
  - intros [?|Hin]%elem_of_cons; [congruence|].
    destruct (IH Hin) as (i & -> & Hi). exists (S i). split; [done|lia].
Qed.

(** The members of the set stand in the order of their first occurrences. *)
Lemma of_list_first_occurrence_order l i j a b :
  i < j →
  StrSet.of_list l !! i = Some a →
  StrSet.of_list l !! j = Some b →
  ∃ p q, index_of a l = Some p ∧ index_of b l = Some q ∧ p < q.
Proof.
  revert i j a b. induction l as [|y l IH] using rev_ind; intros i j a b Hij Ha Hb.
  - done.
  - rewrite of_list_snoc in Ha, Hb. unfold StrSet.add in Ha, Hb.
    case_bool_decide as Hy.
    + destruct (IH i j a b Hij Ha Hb) as (p & q & Hp & Hq & Hpq).
      exists p, q. split_and!; [| |done].
      * rewrite index_of_app_l; [done|].
        apply elem_of_of_list. by eapply list_elem_of_lookup_2.
      * rewrite index_of_app_l; [done|].
        apply elem_of_of_list. by eapply list_elem_of_lookup_2.
    + assert (a ∈ l) as Hal.
      { apply elem_of_of_list.
        apply lookup_lt_Some in Hb. rewrite length_app in Hb. simpl in Hb.
        rewrite lookup_app_l in Ha by lia. by eapply list_elem_of_lookup_2. }
      destruct (decide (j < length (StrSet.of_list l))) as [Hj|Hj].
      * rewrite lookup_app_l in Ha, Hb by lia.
        destruct (IH i j a b Hij Ha Hb) as (p & q & Hp & Hq & Hpq).
        exists p, q. split_and!; [| |done].
        -- by rewrite index_of_app_l.
        -- rewrite index_of_app_l; [done|].
           apply elem_of_of_list. by eapply list_elem_of_lookup_2.
      * rewrite lookup_app_r in Hb by lia.
        apply list_lookup_singleton_Some in Hb as [_ <-].
        destruct (index_of_elem a l Hal) as (p & Hp & Hlt).
        exists p, (length l). split_and!; [| |done].
        -- by rewrite index_of_app_l.
        -- apply index_of_app_r. by rewrite <- elem_of_of_list.
Qed.

End LabelSet.

(** ** The Jira labels *)

Lemma label_candidates_base n e gh :
  label_candidates n e gh = base_labels n e ++ map sanitizeLabel gh.
Proof. done. Qed.

Lemma base_labels_NoDup n e : NoDup (base_labels n e).
Proof.
  unfold base_labels.
  repeat (apply NoDup_cons; split); [..|apply NoDup_nil_2];
    rewrite ?elem_of_cons, ?elem_of_nil; unfold String.append; simpl;
    intuition discriminate.
Qed.

(** C4. For every issue number, effective SDK version and sequence of
    GitHub label names, the Jira label set has no duplicate, has at most 50
    entries, and keeps its members in the order of their first occurrence
    among the candidate labels; its members are candidates, and every
    candidate is a member unless the cap of 50 is reached. *)
Theorem jiraLabels_nodup_ordered_capped (issueNumber effective : jsval)
    (ghLabels : list jsval) :
  let candidates := label_candidates issueNumber effective ghLabels in
  let labels := jiraLabels issueNumber effective ghLabels in
  NoDup labels ∧
  length labels ≤ 50 ∧
  (∀ x, x ∈ labels → x ∈ candidates) ∧
  (length labels < 50 → ∀ x, x ∈ candidates → x ∈ labels) ∧
  (∀ i j a b,
     i < j → labels !! i = Some a → labels !! j = Some b →
     ∃ p q, index_of a candidates = Some p ∧ index_of b candidates = Some q ∧ p < q).
Proof.
  intros candidates labels. unfold labels, jiraLabels, StrSet.to_list.
  fold candidates. split_and!.
  - eapply sublist_NoDup; [apply NoDup_of_list|apply sublist_take].
  - rewrite length_take. lia.
  - intros x Hx%subseteq_take. by apply elem_of_of_list.
  - rewrite length_take. intros Hlt x Hx.
    rewrite take_ge by lia. by apply elem_of_of_list.
  - intros i j a b Hij [Ha _]%lookup_take_Some [Hb _]%lookup_take_Some.
    by eapply of_list_first_occurrence_order.
Qed.

Lemma jiraLabels_nodup_ordered_capped_witness :
  ∃ p q,
    index_of "cmp" (label_candidates (JNum 42) (JStr "14.2.0") [JStr "Bug"; JStr "bug"; JStr "cmp"])
      = Some p ∧
    index_of "bug" (label_candidates (JNum 42) (JStr "14.2.0") [JStr "Bug"; JStr "bug"; JStr "cmp"])
      = Some q ∧
    p < q.
Proof.
  apply (proj2 (proj2 (proj2 (proj2
    (jiraLabels_nodup_ordered_capped (JNum 42) (JStr "14.2.0")
       [JStr "Bug"; JStr "bug"; JStr "cmp"])))) 0 5);
    [lia | reflexivity | reflexivity].
Defined.

(** C1, as amended.  With sixty GitHub labels that are distinct after
    sanitization from each other and from the five labels every ticket
    starts with, the label set has exactly 50 entries: those five labels
    followed by the first 45 GitHub-derived labels, in order. *)
Theorem jiraLabels_sixty_distinct (issueNumber effective : jsval)
    (ghLabels : list jsval) :
  length ghLabels = 60 →
  NoDup (map sanitizeLabel ghLabels) →
  (∀ x, x ∈ map sanitizeLabel ghLabels → x ∉ base_labels issueNumber effective) →
  jiraLabels issueNumber effective ghLabels =
    base_labels issueNumber effective ++ take 45 (map sanitizeLabel ghLabels) ∧
  length (jiraLabels issueNumber effective ghLabels) = 50.
Proof.
  intros Hlen Hnd Hdisj.
  assert (jiraLabels issueNumber effective ghLabels =
          base_labels issueNumber effective ++ take 45 (map sanitizeLabel ghLabels)) as Heq.
  { unfold jiraLabels, StrSet.to_list. rewrite label_candidates_base.
    rewrite of_list_NoDup_id.
    - by rewrite take_app.
    - apply NoDup_app. split_and!; [apply base_labels_NoDup| |done].
      intros x Hx Hx'. by apply (Hdisj x). }
  split; [done|].
  rewrite Heq, length_app, length_take, length_map, Hlen. done.
Qed.

Lemma jiraLabels_sixty_distinct_witness :
  jiraLabels (JNum 42) (JStr "14.2.0") sixty_labels =
    base_labels (JNum 42) (JStr "14.2.0") ++ take 45 (map sanitizeLabel sixty_labels) ∧
  length (jiraLabels (JNum 42) (JStr "14.2.0") sixty_labels) = 50.
Proof.
  apply jiraLabels_sixty_distinct.
  - reflexivity.
  - apply (bool_decide_unpack _). vm_compute. exact I.
  - apply Forall_forall. apply (bool_decide_unpack _). vm_compute. exact I.
Defined.

(** C1 as stated fails: with sixty distinct labels the set has 50 entries,
    but the 46th GitHub-derived label is not among them, so the set does not
    consist of four labels plus the first 46 GitHub-derived ones. *)
Lemma jiraLabels_four_plus_46_fails :
  length sixty_labels = 60 ∧
  NoDup (label_candidates (JNum 42) (JStr "14.2.0") sixty_labels) ∧
  length (jiraLabels (JNum 42) (JStr "14.2.0") sixty_labels) = 50 ∧
  ¬ (∃ fixed : list string,
       length fixed = 4 ∧
       ∀ x, x ∈ jiraLabels (JNum 42) (JStr "14.2.0") sixty_labels ↔
            x ∈ fixed ∨ x ∈ take 46 (map sanitizeLabel sixty_labels)).
Proof.
  split_and!.
  - reflexivity.
  - apply (bool_decide_unpack _). vm_compute. exact I.
  - reflexivity.
  - intros (fixed & _ & Hiff).
    assert ("label-46" ∈ jiraLabels (JNum 42) (JStr "14.2.0") sixty_labels) as Hin.
    { apply Hiff. right. apply (bool_decide_unpack _). vm_compute. exact I. }
    revert Hin. apply (bool_decide_unpack _). vm_compute. exact I.
Qed.

(** ** Priority and effective SDK version *)

Lemma prefix_app_iff (p s : string) :
  String.prefix p s = true ↔ ∃ t, s = p +:+ t.
Proof.
  revert s. induction p as [|c p IH]; intros s.
  - split; [intros _; exists s; reflexivity|by destruct s].
  - destruct s as [|d s]; simpl.
    + split; [done|]. by intros [t [=]].
    + destruct (ascii_dec c d) as [->|Hne].
      * rewrite IH. split; intros [t Ht]; exists t.
        -- unfold String.append in *. simpl. by rewrite Ht.
        -- unfold String.append in Ht. simpl in Ht. by injection Ht.
      * split; [done|]. intros [t Ht].
        unfold String.append in Ht. simpl in Ht. congruence.
Qed.

(** C6. The priority is ["High"] exactly when the severity field is a
    sequence whose first element is a string starting with
    ["Major functionality not working"]; in every other case it is
    ["Medium"]. *)
Theorem jiraPriorityName_high_iff_major (form : list (string * jsval)) :
  (major_severity form ↔ jiraPriorityName form = "High") ∧
  (¬ major_severity form ↔ jiraPriorityName form = "Medium").
Proof.
  assert (isP1 form = true ↔ major_severity form) as HP1.
  { unfold isP1, severity, major_severity.
    destruct (obj_get form "severity") as [| |?|?|?|[|x l]|?]; simpl;
      try (split; [done|by intros (?&?&?&?&?)]).
    destruct x; simpl; try (split; [done|by intros (?&?&?&?&?)]).
    unfold startsWith. rewrite prefix_app_iff. split.
    - intros [t ->]. by eexists _, _, t.
    - intros (s' & rest & t & [= <- _] & ->). by exists t. }
  unfold jiraPriorityName. destruct (isP1 form).
  - assert (major_severity form) as Hmaj by by apply HP1.
    split; split; done.
  - assert (¬ major_severity form) as Hmaj by by intros ?%HP1.
    split; split; done.
Qed.

Lemma jiraPriorityName_high_iff_major_witness :
  jiraPriorityName
    [("severity", JArr [JStr "Major functionality not working - app crashes"])] = "High" ∧
  jiraPriorityName [("severity", JStr "Major functionality not working")] = "Medium".
Proof.
  split.
  - apply (proj1 (jiraPriorityName_high_iff_major _)).
    exists "Major functionality not working - app crashes", [], " - app crashes".
    split; reflexivity.
  - apply (proj2 (jiraPriorityName_high_iff_major _)).
    intros (s & rest & tail & Hsev & _). discriminate Hsev.
Defined.

Lemma strict_eq_str_true v lit : strict_eq_str v lit = true ↔ v = JStr lit.
Proof.
  destruct v; simpl; try (split; [done|by intros [=]]).
  rewrite String.eqb_eq. split; [by intros ->|by intros [= ->]].
Qed.

(** C7. When the first element of the [sdk-version] sequence is
    ["Other (specify below)"], the effective SDK version is the
    [sdk-version-other] field value, or ["Other"] when that is absent;
    otherwise it is the selected [sdk-version] value (the first element of
    the sequence), or ["unknown"] when [sdk-version] is absent, and also
    when it is not a sequence or is an empty one.  The label set always
    contains ["sdk-"]
    followed by the sanitized effective version, and an other-field of
    ["14.2.0-beta"] gives the label ["sdk-14-2-0-beta"]. *)
Theorem effectiveSdkVersion_and_label (form : list (string * jsval))
    (issueNumber : jsval) (ghLabels : list jsval) :
  let effective := effectiveSdkVersion form in
  (∀ rest,
     obj_get form "sdk-version" = JArr (JStr "Other (specify below)" :: rest) →
     (nullish (obj_get form "sdk-version-other") = false →
      effective = obj_get form "sdk-version-other") ∧
     (nullish (obj_get form "sdk-version-other") = true →
      effective = JStr "Other")) ∧
  (∀ v rest,
     obj_get form "sdk-version" = JArr (v :: rest) →
     v ≠ JStr "Other (specify below)" →
     nullish v = false →
     effective = v) ∧
  (obj_get form "sdk-version" = JUndefined → effective = JStr "unknown") ∧
  (isArray (obj_get form "sdk-version") = false ∨ obj_get form "sdk-version" = JArr [] →
   effective = JStr "unknown") ∧
  "sdk-" +:+ sanitizeLabel effective ∈ jiraLabels issueNumber effective ghLabels ∧
  (∀ rest,
     obj_get form "sdk-version" = JArr (JStr "Other (specify below)" :: rest) →
     obj_get form "sdk-version-other" = JStr "14.2.0-beta" →
     "sdk-14-2-0-beta" ∈ jiraLabels issueNumber effective ghLabels).
Proof.
  intros effective.
  assert ("sdk-" +:+ sanitizeLabel effective ∈ jiraLabels issueNumber effective ghLabels)
    as Hlabel.
  { unfold jiraLabels, StrSet.to_list. apply elem_of_take_of_list.
    rewrite label_candidates_base.
    rewrite take_app. apply elem_of_app. left.
    unfold base_labels. simpl. rewrite !elem_of_cons. auto 10. }
  split_and!.
  - intros rest Hv. unfold effective, effectiveSdkVersion, sdkVersion, sdkVersionOther.
    rewrite Hv. simpl. unfold coalesce. split; by intros ->.
  - intros v rest Hv Hne Hnn.
    unfold effective, effectiveSdkVersion, sdkVersion. rewrite Hv. simpl.
    destruct (strict_eq_str v "Other (specify below)") eqn:Heq.
    + by apply strict_eq_str_true in Heq.
    + unfold coalesce. by rewrite Hnn.
  - intros Hv. unfold effective, effectiveSdkVersion, sdkVersion. by rewrite Hv.
  - intros [Hv|Hv]; unfold effective, effectiveSdkVersion, sdkVersion; by rewrite Hv.
  - done.
  - intros rest Hv Hother.
    assert (effective = JStr "14.2.0-beta") as Heff.
    { unfold effective, effectiveSdkVersion, sdkVersion, sdkVersionOther.
      by rewrite Hv, Hother. }
    rewrite Heff in Hlabel |- *. exact Hlabel.
Qed.

Lemma effectiveSdkVersion_and_label_witness :
  "sdk-14-2-0-beta" ∈
    jiraLabels (JNum 42)
      (effectiveSdkVersion
         [("sdk-version", JArr [JStr "Other (specify below)"]);
          ("sdk-version-other", JStr "14.2.0-beta")])
      [JStr "bug"].
Proof.
  apply (proj2 (proj2 (proj2 (proj2 (proj2
    (effectiveSdkVersion_and_label
       [("sdk-version", JArr [JStr "Other (specify below)"]);
        ("sdk-version-other", JStr "14.2.0-beta")]
       (JNum 42) [JStr "bug"]))))) []); reflexivity.
Defined.

(** ** Missing values *)

Lemma drop_class_nil_iff (p : ascii → bool) (l : list ascii) :
  drop_class p l = [] ↔ Forall (λ c, p c = true) l.
Proof.
  induction l as [|c l IH]; simpl.
  - split; [constructor|done].
  - destruct (p c) eqn:Hc.
    + rewrite IH. split; [by constructor|by inversion 1].
    + split; [done|]. inversion 1; congruence.
Qed.

Lemma drop_class_idem (p : ascii → bool) (l : list ascii) :
  drop_class p (drop_class p l) = drop_class p l.
Proof.
  induction l as [|c l IH]; simpl; [done|].
  destruct (p c) eqn:Hc; [done|]. simpl. by rewrite Hc.
Qed.

Lemma trim_units_nil_iff (l : list ascii) :
  trim_units l = [] ↔ Forall (λ c, is_space c = true) l.
Proof.
  unfold trim_units. split.
  - intros H. apply (f_equal (@rev ascii)) in H. rewrite rev_involutive in H.
    simpl in H. apply drop_class_nil_iff in H.
    apply Forall_rev in H. rewrite rev_involutive in H.
    apply drop_class_nil_iff. rewrite <- drop_class_idem.
    by apply drop_class_nil_iff.
  - intros H. apply drop_class_nil_iff in H. by rewrite H.
Qed.

Lemma string_of_list_ascii_length (l : list ascii) :
  String.length (string_of_list_ascii l) = length l.
Proof. induction l as [|c l IH]; simpl; [done|by rewrite IH]. Qed.

Lemma isMissing_string (s : string) : isMissing (JStr s) = true ↔ blank s.
Proof.
  unfold isMissing, blank. simpl. unfold trim.
  rewrite string_of_list_ascii_length, Nat.eqb_eq, <- trim_units_nil_iff.
  by destruct (trim_units (list_ascii_of_string s)).
Qed.

Lemma get_or_undef_obj props k : get_or_undef (JObj props) k = obj_get props k.
Proof. done. Qed.

Lemma isMissing_iff_shape (v : jsval) : isMissing v = true ↔ missing_shape v.
Proof.
  unfold missing_shape. destruct v as [| |b|n|s|l|props].
  - split; [by left|done].
  - split; [by right; left|done].
  - split; [done|]. intros [?|[?|[?|[(?&?&?)|(?&?&?)]]]]; done.
  - split; [done|]. intros [?|[?|[?|[(?&?&?)|(?&?&?)]]]]; done.
  - rewrite isMissing_string. split.
    + intros Hs. right; right; right; left. by exists s.
    + intros [?|[?|[?|[(s' & [= <-] & ?)|(?&?&?)]]]]; done.
  - destruct l as [|x l]; simpl.
    + split; [by right; right; left|done].
    + split; [done|]. intros [?|[?|[?|[(?&?&?)|(?&?&?)]]]]; done.
  - unfold isMissing. simpl. rewrite !get_or_undef_obj.
    destruct (obj_get props "selected") as [| |?|?|?|sel|?] eqn:Hsel; simpl;
      try (split; [done|]; intros [?|[?|[?|[(?&?&?)|(? & [= <-] & ? & ?)]]]]; congruence).
    destruct (obj_get props "unselected") as [| |?|?|?|uns|?] eqn:Huns; simpl;
      try (split; [done|]; intros [?|[?|[?|[(?&?&?)|(? & [= <-] & ? & ?)]]]]; congruence).
    destruct sel as [|x sel], uns as [|y uns]; simpl;
      try (split; [done|]; intros [?|[?|[?|[(?&?&?)|(? & [= <-] & ? & ?)]]]]; congruence).
    split; [|done]. intros _. right; right; right; right. by exists props.
Qed.

(** C5, as amended.  [valueOrMissing(id)] returns the text
    [Field <id> wasn't entered.] whenever the raw value is missing
    (undefined, null, an empty sequence, a blank string, or a checkbox group
    with both sub-sequences empty) and otherwise returns [normalizeValue] of
    the raw value; so it returns that text exactly when the raw value is
    missing or is a value that [normalizeValue] turns into that very text.
    [isMissing] is false for the number 0, for strings with a non-blank
    character, for non-empty sequences, and for objects that do not have the
    checkbox shape. *)
Theorem valueOrMissing_sentinel_iff_missing (form : list (string * jsval))
    (id : string) :
  (∀ v, isMissing v = true ↔ missing_shape v) ∧
  (missing_shape (obj_get form id) →
   valueOrMissing form id = JStr ("Field " +:+ id +:+ " wasn't entered.")) ∧
  (¬ missing_shape (obj_get form id) →
   valueOrMissing form id = normalizeValue (obj_get form id)) ∧
  isMissing (JNum 0) = false ∧
  (∀ s, ¬ blank s → isMissing (JStr s) = false) ∧
  (∀ x l, isMissing (JArr (x :: l)) = false) ∧
  (∀ props, ¬ checkbox_shape props → isMissing (JObj props) = false) ∧
  (valueOrMissing form id = JStr ("Field " +:+ id +:+ " wasn't entered.") ↔
   missing_shape (obj_get form id) ∨
   normalizeValue (obj_get form id)
     = JStr ("Field " +:+ id +:+ " wasn't entered.")).
Proof.
  split_and!.
  - apply isMissing_iff_shape.
  - intros Hm%isMissing_iff_shape. unfold valueOrMissing. by rewrite Hm.
  - intros Hm. unfold valueOrMissing.
    destruct (isMissing (obj_get form id)) eqn:E; [|done].
    by apply isMissing_iff_shape in E.
  - done.
  - intros s Hs. destruct (isMissing (JStr s)) eqn:E; [|done].
    by apply isMissing_string in E.
  - done.
  - intros props Hshape. unfold isMissing, checkbox_shape in *. simpl.
    rewrite !get_or_undef_obj.
    destruct (isArray (obj_get props "selected")),
             (isArray (obj_get props "unselected")); simpl; try done.
    by destruct Hshape.
  - unfold valueOrMissing.
    destruct (isMissing (obj_get form id)) eqn:E.
    + split; [|done]. intros _. left. by apply isMissing_iff_shape.
    + split; [by right|].
      intros [Hm%isMissing_iff_shape|Hn]; [congruence|done].
Qed.

Lemma valueOrMissing_sentinel_iff_missing_witness :
  valueOrMissing [("device", JStr "   "); ("logs", JStr "x")] "device"
    = JStr "Field device wasn't entered." ∧
  valueOrMissing [("device", JStr "   "); ("logs", JStr "x")] "logs"
    = normalizeValue (JStr "x") ∧
  isMissing (JStr "x") = false ∧
  isMissing (JObj [("selected", JArr [])]) = false ∧
  valueOrMissing [("device", JStr "Field device wasn't entered.")] "device"
    = JStr "Field device wasn't entered.".
Proof.
  pose proof (valueOrMissing_sentinel_iff_missing
                [("device", JStr "   "); ("logs", JStr "x")] "device") as Hd.
  pose proof (valueOrMissing_sentinel_iff_missing
                [("device", JStr "   "); ("logs", JStr "x")] "logs") as Hl.
  pose proof (valueOrMissing_sentinel_iff_missing
                [("device", JStr "Field device wasn't entered.")] "device")
    as Hs.
  split_and!.
  - apply (proj1 (proj2 Hd)).
    right; right; right; left. exists "   ". split; [reflexivity|].
    unfold blank. simpl. repeat constructor.
  - apply (proj1 (proj2 (proj2 Hl))).
    intros Hm. apply (proj1 Hl) in Hm. discriminate Hm.
  - apply (proj1 (proj2 (proj2 (proj2 (proj2 Hd))))).
    unfold blank. simpl. intros Hb. inversion Hb as [|? ? Hx _]. discriminate Hx.
  - apply (proj1 (proj2 (proj2 (proj2 (proj2 (proj2 (proj2 Hd))))))).
    unfold checkbox_shape. simpl. intros [_ Hu]. discriminate Hu.
  - apply (proj2 (proj2 (proj2 (proj2 (proj2 (proj2 (proj2 Hs))))))).
    right. reflexivity.
Defined.

(** C5 as stated fails in the direction from the returned text to the raw
    value: when the form holds the text [Field device wasn't entered.]
    under the id [device], that value is not missing (it is a string with
    non-blank characters, [isMissing] is false of it), yet
    [valueOrMissing] returns exactly the text
    [Field device wasn't entered.], through [normalizeValue]. *)
Lemma valueOrMissing_sentinel_for_present_value :
  isMissing (obj_get [("device", JStr "Field device wasn't entered.")]
                     "device") = false ∧
  valueOrMissing [("device", JStr "Field device wasn't entered.")] "device"
    = JStr ("Field " +:+ "device" +:+ " wasn't entered.") ∧
  ¬ (∀ (form : list (string * jsval)) (id : string),
       valueOrMissing form id = JStr ("Field " +:+ id +:+ " wasn't entered.")
       ↔ isMissing (obj_get form id) = true).
Proof.
  split_and!; [reflexivity|reflexivity|].
  intros H.
  specialize (H [("device", JStr "Field device wasn't entered.")] "device").
  destruct H as [H _]. discriminate H. reflexivity.
Qed.

(** ** The logs block of the description *)

Section Description.

Variable rt : Runtime.

Lemma fieldLog_logs form :
  obj_get (fieldLog form) "logs" = valueOrMissing form "logs".
Proof. done. Qed.

Lemma descriptionContent_last n a u log :
  last (descriptionContent rt n a u log)
    = Some (logs_block rt log).
Proof. done. Qed.

(** Where the script agrees with the specification: a missing logs field
    gives the paragraph with the sentinel text, and a present one whose
    display text does not start with ["Field "] gives the shell code
    block. *)
Lemma logs_block_missing form :
  isMissing (obj_get form "logs") = true →
  logs_block rt (fieldLog form)
    = adfParagraph (JStr "Field logs wasn't entered.").
Proof.
  intros Hm. unfold logs_block. rewrite fieldLog_logs.
  unfold valueOrMissing. by rewrite Hm.
Qed.

Lemma logs_block_present form :
  isMissing (obj_get form "logs") = false →
  (∀ s, normalizeValue (obj_get form "logs") = JStr s → startsWith s "Field " = false) →
  logs_block rt (fieldLog form)
    = adfCodeBlock
        (match normalizeValue (obj_get form "logs") with
         | JStr s => JStr s
         | structured => JStr (JSON_stringify rt structured 2)
         end) "shell".
Proof.
  intros Hm Hpre. unfold logs_block. rewrite fieldLog_logs.
  unfold valueOrMissing. rewrite Hm.
  destruct (normalizeValue (obj_get form "logs")) as [| |?|?|s|?|?] eqn:Hn; try done.
  simpl. by rewrite (Hpre s eq_refl).
Qed.

(** C3, at the input where the script departs from it.  The logs field
    holds the text ["Field report: crash on launch"], which is not missing;
    the block after the "logs" heading is nevertheless a paragraph holding
    that text, not a shell code block: the script recognises the sentinel by
    the prefix ["Field "] of the display text. *)
Theorem logs_block_field_prefix_paragraph (issueNumber issueAuthor issueUrl : jsval) :
  let form := [("logs", JStr "Field report: crash on launch")] in
  isMissing (obj_get form "logs") = false ∧
  normalizeValue (obj_get form "logs") = JStr "Field report: crash on launch" ∧
  last (descriptionContent rt issueNumber issueAuthor issueUrl (fieldLog form))
    = Some (adfParagraph (JStr "Field report: crash on launch")) ∧
  adfParagraph (JStr "Field report: crash on launch")
    ≠ adfCodeBlock (JStr "Field report: crash on launch") "shell".
Proof. by split_and!. Qed.

End Description.

(** ** The run: environment checks *)

Section Run.

Variable rt : Runtime.

Lemma bind_run {A B} (m : M A) (f : A → M B) tr :
  (m ≫= f) tr =
  match m tr with
  | (tr', Returned a) => f a tr'
  | (tr', Thrown e) => (tr', Thrown e)
  end.
Proof. done. Qed.

Lemma bind_requiredEnv_ok {B} w name (f : jsval → M B) tr :
  truthy (process_env w name) = true →
  (requiredEnv w name ≫= f) tr = f (process_env w name) tr.
Proof. intros H. rewrite bind_run. unfold requiredEnv. by rewrite H. Qed.

Lemma bind_requiredEnv_throw {B} w name (f : jsval → M B) tr :
  truthy (process_env w name) = false →
  (requiredEnv w name ≫= f) tr = (tr, Thrown (missing_env_error name)).
Proof. intros H. rewrite bind_run. unfold requiredEnv. by rewrite H. Qed.

(** The run stops at the first required variable that is absent or empty,
    before any event. *)
Lemma run_first_unset w name :
  first_unset w = Some name →
  run rt w = ([], Thrown (missing_env_error name)).
Proof.
  unfold first_unset, required_names. rewrite !filter_cons, filter_nil.
  unfold run, main.
  destruct (truthy (process_env w "ISSUE_TEMPLATE_PATH")) eqn:H1.
  2:{ simpl. intros [= <-]. by rewrite bind_requiredEnv_throw. }
  rewrite bind_requiredEnv_ok by done.
  destruct (truthy (process_env w "JIRA_BASE_URL")) eqn:H2.
  2:{ simpl. intros [= <-]. by rewrite bind_requiredEnv_throw. }
  rewrite bind_requiredEnv_ok by done.
  destruct (truthy (process_env w "JIRA_EMAIL")) eqn:H3.
  2:{ simpl. intros [= <-]. by rewrite bind_requiredEnv_throw. }
  rewrite bind_requiredEnv_ok by done.
  destruct (truthy (process_env w "JIRA_API_TOKEN")) eqn:H4.
  2:{ simpl. intros [= <-]. by rewrite bind_requiredEnv_throw. }
  rewrite bind_requiredEnv_ok by done. lazy zeta.
  destruct (truthy (process_env w "GITHUB_TOKEN")) eqn:H5.
  2:{ simpl. intros [= <-]. by rewrite bind_requiredEnv_throw. }
  done.
Qed.

Lemma first_unset_exists w name :
  name ∈ required_names →
  truthy (process_env w name) = false →
  ∃ x, first_unset w = Some x ∧ x ∈ required_names ∧
       truthy (process_env w x) = false.
Proof.
  intros Hin Hf. unfold first_unset.
  destruct (filter _ required_names) as [|x l] eqn:Hfl.
  - assert (name ∈ filter (λ n, truthy (process_env w n) = false) required_names) as Hn
      by by apply list_elem_of_filter.
    rewrite Hfl in Hn. by apply elem_of_nil in Hn.
  - exists x. split; [done|].
    assert (x ∈ filter (λ n, truthy (process_env w n) = false) required_names) as Hx
      by (rewrite Hfl; apply list_elem_of_here).
    by apply list_elem_of_filter in Hx as [? ?].
Qed.

Lemma first_unset_is_name w name :
  name ∈ required_names →
  truthy (process_env w name) = false →
  (∀ n, n ∈ names_before name required_names → truthy (process_env w n) = true) →
  first_unset w = Some name.
Proof.
  intros Hin Hf Hbefore. unfold first_unset, required_names in *.
  rewrite !filter_cons, filter_nil.
  rewrite !elem_of_cons, elem_of_nil in Hin.
  destruct Hin as [->|[->|[->|[->|[->|[]]]]]]; simpl in Hbefore;
    repeat match goal with
    | |- context [decide (truthy (process_env w ?n) = false)] =>
        first [ rewrite Hf
              | rewrite (Hbefore n) by (rewrite !elem_of_cons; auto 10) ];
        simpl
    end; done.
Qed.

Lemma process_env_falsy_empty w name :
  env w !! name = Some EmptyString → truthy (process_env w name) = false.
Proof. unfold process_env. by intros ->. Qed.

Lemma process_env_falsy_absent w name :
  env w !! name = None → truthy (process_env w name) = false.
Proof. unfold process_env. by intros ->. Qed.

Lemma first_unset_delete w name :
  truthy (process_env w name) = false →
  first_unset (with_env w (delete name (env w))) = first_unset w.
Proof.
  intros Hf. unfold first_unset. f_equal. apply list_filter_iff. intros n.
  unfold process_env at 1. simpl.
  destruct (decide (name = n)) as [<-|Hne].
  - rewrite lookup_delete_eq. simpl. by rewrite Hf.
  - by rewrite lookup_delete_ne.
Qed.

(** C10. A variable read through [requiredEnv] that is set to the empty
    string is treated as an absent one: [requiredEnv] throws
    [Missing required env var: <name>]; so does the run, naming the first
    required variable that is absent or empty, which is <name> itself when
    those read before it are set; and the run is the one of the same
    surroundings with the variable removed. *)
Theorem requiredEnv_empty_as_absent (w : World) (name : string) :
  name ∈ required_names →
  env w !! name = Some EmptyString →
  requiredEnv w name [] = ([], Thrown (Error ("Missing required env var: " +:+ name))) ∧
  ((∀ n, n ∈ names_before name required_names → truthy (process_env w n) = true) →
   run rt w = ([], Thrown (Error ("Missing required env var: " +:+ name)))) ∧
  (∃ x, x ∈ required_names ∧
        run rt w = ([], Thrown (Error ("Missing required env var: " +:+ x)))) ∧
  run rt w = run rt (with_env w (delete name (env w))).
Proof.
  intros Hin Hempty.
  pose proof (process_env_falsy_empty w name Hempty) as Hf.
  split_and!.
  - unfold requiredEnv. by rewrite Hf.
  - intros Hbefore. apply run_first_unset. by apply first_unset_is_name.
  - destruct (first_unset_exists w name Hin Hf) as (x & Hx & Hxin & _).
    exists x. split; [done|]. by apply run_first_unset.
  - destruct (first_unset_exists w name Hin Hf) as (x & Hx & _ & _).
    rewrite (run_first_unset w x Hx).
    symmetry. apply run_first_unset. by rewrite first_unset_delete.
Qed.

(** C2, as amended.  For each of the five variables read through
    [requiredEnv], if the variable is absent the run fails with
    [Missing required env var: <n>] before any event (no file read, no
    request), <n> being the first of the five that is absent or empty, the
    variable itself when those read before it are set.  GITHUB_EVENT_PATH
    and GITHUB_REPOSITORY are read without that check: with the five set, an
    absent GITHUB_EVENT_PATH is the TypeError of [readFileSync], before any
    event, and an absent GITHUB_REPOSITORY is a TypeError raised once the
    event file has been read and holds an issue, before any request. *)
Theorem requiredEnv_absent_fails_fast (w : World) :
  (∀ name,
     name ∈ required_names →
     env w !! name = None →
     ((∀ n, n ∈ names_before name required_names → truthy (process_env w n) = true) →
      run rt w = ([], Thrown (Error ("Missing required env var: " +:+ name)))) ∧
     (∃ x, x ∈ required_names ∧ truthy (process_env w x) = false ∧
           run rt w = ([], Thrown (Error ("Missing required env var: " +:+ x))))) ∧
  ((∀ n, n ∈ required_names → truthy (process_env w n) = true) →
   env w !! "GITHUB_EVENT_PATH" = None →
   run rt w = ([], Thrown (TypeError "ERR_INVALID_ARG_TYPE"))) ∧
  (∀ path text ev issue,
     (∀ n, n ∈ required_names → truthy (process_env w n) = true) →
     env w !! "GITHUB_EVENT_PATH" = Some path →
     files w !! path = Some text →
     JSON_parse rt text = Some ev →
     get ev "issue" = Some issue →
     truthy issue = true →
     env w !! "GITHUB_REPOSITORY" = None →
     run rt w = ([EvReadFile path],
                 Thrown (TypeError "Cannot read properties of undefined (reading 'split')"))).
Proof.
  split_and!.
  - intros name Hin Habsent.
    pose proof (process_env_falsy_absent w name Habsent) as Hf. split.
    + intros Hbefore. apply run_first_unset. by apply first_unset_is_name.
    + destruct (first_unset_exists w name Hin Hf) as (x & Hx & Hxin & Hxf).
      exists x. split_and!; [done..|]. by apply run_first_unset.
  - intros Hset Hpath. unfold run, main.
    rewrite !bind_requiredEnv_ok by (apply Hset; unfold required_names; set_solver).
    lazy zeta.
    rewrite bind_run. unfold process_env at 1. by rewrite Hpath.
  - intros path text ev issue Hset Hpath Hfile Hparse Hissue Htruthy Hrepo.
    unfold run, main.
    rewrite !bind_requiredEnv_ok by (apply Hset; unfold required_names; set_solver).
    lazy zeta.
    rewrite bind_run. unfold process_env at 1. rewrite Hpath.
    unfold readFileSync. rewrite bind_run. unfold emit at 1. rewrite Hfile.
    lazy beta iota delta [mret M_ret app].
    rewrite bind_run, Hparse. lazy beta iota delta [mret M_ret].
    rewrite bind_run, Hissue. lazy beta iota delta [or_type_error mret M_ret].
    rewrite Htruthy. lazy beta iota delta [negb].
    rewrite bind_run. unfold process_env at 1. by rewrite Hrepo.
Qed.

End Run.

Lemma requiredEnv_empty_as_absent_witness :
  run rt0 world_empty_email = ([], Thrown (Error "Missing required env var: JIRA_EMAIL")) ∧
  run rt0 world_empty_email = run rt0 world_no_email.
Proof.
  destruct (requiredEnv_empty_as_absent rt0 world_empty_email "JIRA_EMAIL")
    as (_ & Hrun & _ & Hsame).
  - unfold required_names. rewrite !elem_of_cons. auto.
  - reflexivity.
  - split; [|exact Hsame]. apply Hrun.
    simpl. intros n Hn. rewrite !elem_of_cons, elem_of_nil in Hn.
    destruct Hn as [->|[->|[]]]; reflexivity.
Defined.

Lemma requiredEnv_absent_fails_fast_witness :
  run rt0 world_no_email = ([], Thrown (Error "Missing required env var: JIRA_EMAIL")) ∧
  run rt0 world_no_repository =
    ([EvReadFile "event.json"],
     Thrown (TypeError "Cannot read properties of undefined (reading 'split')")).
Proof.
  split.
  - destruct (proj1 (requiredEnv_absent_fails_fast rt0 world_no_email) "JIRA_EMAIL")
      as [Hrun _].
    + unfold required_names. rewrite !elem_of_cons. auto.
    + reflexivity.
    + apply Hrun. simpl. intros n Hn. rewrite !elem_of_cons, elem_of_nil in Hn.
      destruct Hn as [->|[->|[]]]; reflexivity.
  - apply (proj2 (proj2 (requiredEnv_absent_fails_fast rt0 world_no_repository))
             "event.json" event_json (JObj [ ("issue", JObj [ ("number", JNum 42) ]) ])
             (JObj [ ("number", JNum 42) ])); try reflexivity.
    intros n Hn. unfold required_names in Hn. rewrite !elem_of_cons, elem_of_nil in Hn.
    destruct Hn as [->|[->|[->|[->|[->|[]]]]]]; reflexivity.
Defined.

(** C2 as stated fails for GITHUB_REPOSITORY: with that variable absent and
    everything else in place, the run reads the event file and then throws a
    TypeError, not [Missing required env var: GITHUB_REPOSITORY]. *)
Lemma missing_repository_not_checked :
  env world_no_repository !! "GITHUB_REPOSITORY" = None ∧
  run rt0 world_no_repository =
    ([EvReadFile "event.json"],
     Thrown (TypeError "Cannot read properties of undefined (reading 'split')")) ∧
  ¬ (∃ tr, run rt0 world_no_repository =
             (tr, Thrown (Error "Missing required env var: GITHUB_REPOSITORY")) ∧
           filter (λ e, is_read e = true) tr = []).
Proof.
  assert (run rt0 world_no_repository =
    ([EvReadFile "event.json"],
     Thrown (TypeError "Cannot read properties of undefined (reading 'split')"))) as Hrun
    by by vm_compute.
  split_and!; [by vm_compute|done|].
  intros (tr & Htr & _). rewrite Hrun in Htr. discriminate Htr.
Qed.

(** ** The run: order of the two requests *)

Section Stages.

Variable rt : Runtime.
Variable w : World.

Implicit Types (P : list request → Prop) (E : exn → list request → Prop).

Lemma triple_bind {A B} P (m : M A) (f : A → M B)
    (Q : A → list request → Prop) (R : B → list request → Prop) E :
  triple P m Q E → (∀ a, triple (Q a) (f a) R E) → triple P (m ≫= f) R E.
Proof.
  intros Hm Hf tr HP. rewrite bind_run. specialize (Hm tr HP).
  destruct (m tr) as [tr' [a|e]]; [|done]. by apply Hf.
Qed.

Lemma triple_ret {A} P (a : A) E : triple P (mret a) (λ _, P) E.
Proof. by intros tr HP. Qed.

Lemma triple_throw {A} P (e : exn) (Q : A → list request → Prop) E :
  (∀ fs, P fs → E e fs) → triple P (throw e) Q E.
Proof. intros H tr HP. by apply H. Qed.

Lemma fetches_snoc_other tr e : is_fetch e = false → fetches (tr ++ [e]) = fetches tr.
Proof.
  intros He. unfold fetches. rewrite omap_app. simpl.
  destruct e; [..|done]; by rewrite app_nil_r.
Qed.

Lemma fetches_snoc_fetch tr req : fetches (tr ++ [EvFetch req]) = fetches tr ++ [req].
Proof. unfold fetches. by rewrite omap_app. Qed.

Lemma triple_emit_other P e E :
  is_fetch e = false → triple P (emit e) (λ _, P) E.
Proof. intros He tr HP. simpl. by rewrite fetches_snoc_other. Qed.

Lemma triple_log P line E : triple P (console_log line) (λ _, P) E.
Proof. by apply triple_emit_other. Qed.

Lemma not_network_error_missing name :
  ¬ is_ticket_creation_error (Error ("Missing required env var: " +:+ name)) ∧
  ¬ is_comment_post_error (Error ("Missing required env var: " +:+ name)).
Proof.
  split; intros (s & t & H); injection H; unfold String.append; simpl; discriminate.
Qed.

Lemma ticket_error_not_comment_error res :
  ¬ is_comment_post_error (ticket_creation_error res).
Proof.
  intros (s & t & H). injection H. unfold String.append. simpl. discriminate.
Qed.

(** Before the first request. *)
Lemma quiet_throw {A} e (Q : A → list request → Prop) :
  ¬ is_ticket_creation_error e → ¬ is_comment_post_error e →
  triple no_request (throw e) Q (failure_stage rt w).
Proof. intros Ht Hc. apply triple_throw. intros fs ->. by left. Qed.

Lemma quiet_requiredEnv name :
  triple no_request (requiredEnv w name) (λ _, no_request) (failure_stage rt w).
Proof.
  unfold requiredEnv. destruct (negb _).
  - apply quiet_throw; apply not_network_error_missing.
  - apply triple_ret.
Qed.

Lemma quiet_readFileSync path :
  triple no_request (readFileSync w path) (λ _, no_request) (failure_stage rt w).
Proof.
  destruct path; try (apply quiet_throw; by intros (? & ? & [=])).
  simpl. eapply triple_bind.
  - by apply triple_emit_other.
  - intros ?. simpl. destruct (files w !! s).
    + apply triple_ret.
    + apply quiet_throw; by intros (? & ? & [=]).
Qed.

(** The ticket request. *)
Lemma stage_jiraCreateIssue cfg payload :
  triple no_request (jiraCreateIssue rt w cfg payload)
    (λ _, ticket_created rt w) (failure_stage rt w).
Proof.
  intros tr HP. unfold no_request in HP.
  unfold jiraCreateIssue. rewrite bind_run. unfold fetch. rewrite HP. simpl.
  destruct (network w 0 (jira_request rt cfg payload)) as [res|] eqn:Hnet.
  - destruct (res_ok res) eqn:Hok; simpl.
    + destruct (JSON_parse rt (res_text res)); simpl;
        rewrite fetches_snoc_fetch, HP; simpl.
      * by exists cfg, payload, res.
      * right; left. exists cfg, payload. split_and!; [done| |].
        -- by intros (? & ? & [=]).
        -- intros res' Hnet' Hok'. congruence.
    + rewrite fetches_snoc_fetch, HP. simpl.
      right; left. exists cfg, payload. split_and!; [done| |].
      * apply ticket_error_not_comment_error.
      * intros res' Hnet' _. rewrite Hnet in Hnet'. by injection Hnet' as <-.
  - rewrite fetches_snoc_fetch, HP. simpl.
    right; left. exists cfg, payload. split_and!; [done| |].
    + by intros (? & ? & [=]).
    + intros res' Hnet' _. congruence.
Qed.

Lemma created_throw {A} e (Q : A → list request → Prop) :
  ¬ is_comment_post_error e →
  triple (ticket_created rt w) (throw e) Q (failure_stage rt w).
Proof.
  intros Hc. apply triple_throw. intros fs (cfg & payload & res & -> & Hnet & Hok).
  right; left. exists cfg, payload. split_and!; [done..|].
  intros res' Hnet' Hok'. congruence.
Qed.

(** The comment request. *)
Lemma stage_ghCreateComment cfg owner repo n body :
  triple (ticket_created rt w) (ghCreateComment rt w cfg owner repo n body)
    (λ _, comment_requested rt w) (failure_stage rt w).
Proof.
  intros tr (cfg' & payload & res & Hfs & Hnet & Hok).
  assert (comment_requested rt w
            (fetches (tr ++ [EvFetch (comment_request rt cfg owner repo n body)]))) as Hc.
  { rewrite fetches_snoc_fetch, Hfs. simpl.
    by exists cfg', payload, res, cfg, owner, repo, n, body. }
  unfold ghCreateComment. rewrite bind_run. unfold fetch.
  destruct (network w (length (fetches tr)) _) as [res'|]; simpl.
  - destruct (res_ok res'); simpl; [done|]. by right; right.
  - by right; right.
Qed.

(** The whole script, stage by stage. *)
Lemma main_stages :
  triple no_request (main rt w) (λ _, comment_requested rt w) (failure_stage rt w).
Proof.
  unfold main.
  do 4 (eapply triple_bind; [apply quiet_requiredEnv|intros ?; lazy beta]).
  lazy zeta.
  eapply triple_bind; [apply quiet_requiredEnv|intros ?; lazy beta].
  eapply triple_bind; [apply quiet_readFileSync|intros event_text; lazy beta].
  eapply triple_bind.
  { destruct (JSON_parse rt event_text);
      [apply triple_ret|apply quiet_throw; by intros (? & ? & [=])]. }
  intros GH_EVENT. lazy beta.
  eapply triple_bind.
  { destruct (get GH_EVENT "issue"); simpl;
      [apply triple_ret|apply quiet_throw; by intros (? & ? & [=])]. }
  intros issue. lazy beta.
  destruct (truthy issue); simpl.
  2:{ apply quiet_throw; intros (s & t & H); injection H;
        unfold String.append; simpl; discriminate. }
  eapply triple_bind.
  { destruct (process_env w "GITHUB_REPOSITORY");
      first [apply triple_ret|apply quiet_throw; by intros (? & ? & [=])]. }
  intros parts. lazy beta.
  eapply triple_bind.
  { destruct (ghLabels_of issue); simpl;
      [apply triple_ret|apply quiet_throw; by intros (? & ? & [=])]. }
  intros ghLabels. lazy beta.
  eapply triple_bind; [apply quiet_readFileSync|intros templateYaml; lazy beta].
  eapply triple_bind.
  { destruct (parseIssue rt _ templateYaml);
      [apply triple_ret|apply quiet_throw; by intros (? & ? & [=])]. }
  intros form. lazy beta.
  do 2 (eapply triple_bind; [apply triple_log|intros ?; lazy beta]).
  eapply triple_bind; [apply stage_jiraCreateIssue|intros created; lazy beta].
  eapply triple_bind.
  { destruct (get created "key"); simpl;
      [apply triple_ret|apply created_throw; by intros (? & ? & [=])]. }
  intros jiraKey. lazy beta.
  do 2 (eapply triple_bind; [apply triple_log|intros ?; lazy beta]).
  eapply triple_bind; [apply stage_ghCreateComment|intros ?; lazy beta].
  apply triple_log.
Qed.

(** C9. Whatever the surroundings of the run:
    - the first request, if any, is the ticket request; when its reply is
      not a success the run throws the ticket-creation error and sends no
      other request;
    - a second request, if any, is the comment request, and it was sent
      after a successful reply to the ticket request; there is no third;
    - the comment-post error is thrown only then, with the ticket created
      and nothing undone. *)
Theorem comment_only_after_ticket_created :
  let tr := (run rt w).1 in
  let out := (run rt w).2 in
  (∀ j rest, fetches tr = j :: rest → ∃ cfg payload, j = jira_request rt cfg payload) ∧
  (∀ j rest res,
     fetches tr = j :: rest → network w 0 j = Some res → res_ok res = false →
     out = Thrown (Error ("Jira create issue failed (" +:+ pretty (res_status res) +:+
                          "): " +:+ res_text res)) ∧
     rest = []) ∧
  (∀ j c rest,
     fetches tr = j :: c :: rest →
     rest = [] ∧
     (∃ cfg owner repo n body, c = comment_request rt cfg owner repo n body) ∧
     ∃ res, network w 0 j = Some res ∧ res_ok res = true) ∧
  (∀ e,
     out = Thrown e → is_comment_post_error e →
     ∃ j c res, fetches tr = [j; c] ∧ network w 0 j = Some res ∧ res_ok res = true).
Proof.
  intros tr out. pose proof (main_stages [] eq_refl) as H.
  fold (run rt w) in H. subst tr out.
  destruct (run rt w) as [tr [[]|e]]; simpl.
  - destruct H as (cfg & payload & res & cfg' & owner & repo & n & body & -> & Hnet & Hok).
    split_and!.
    + intros j rest [= <- _]. by exists cfg, payload.
    + intros j rest res' [= <- _] Hnet' Hok'. congruence.
    + intros j c rest [= <- <- <-]. split_and!; [done|by eexists _, _, _, _, _|by exists res].
    + done.
  - destruct H as [(-> & Ht & Hc)|[(cfg & payload & -> & Hc & Hres)|H]].
    + split_and!; [by intros ? ? [=]|by intros ? ? ? [=]|by intros ? ? ? [=]|].
      intros e0 [= <-] He. by destruct Hc.
    + split_and!.
      * intros j rest [= <- _]. by exists cfg, payload.
      * intros j rest res [= <- <-] Hnet Hok. split; [|done].
        f_equal. by apply Hres.
      * by intros ? ? ? [=].
      * intros e0 [= <-] He. by destruct Hc.
    + destruct H as (cfg & payload & res & cfg' & owner & repo & n & body & -> & Hnet & Hok).
      split_and!.
      * intros j rest [= <- _]. by exists cfg, payload.
      * intros j rest res' [= <- _] Hnet' Hok'. congruence.
      * intros j c rest [= <- <- <-].
        split_and!; [done|by eexists _, _, _, _, _|by exists res].
      * intros _ _ _. by eexists _, _, res.
Qed.

End Stages.

Lemma comment_only_after_ticket_created_witness :
  ∃ j,
    fetches (run rt0 world_jira_refuses).1 = [j] ∧
    (run rt0 world_jira_refuses).2
      = Thrown (Error "Jira create issue failed (500): Internal error").
Proof.
  destruct (fetches (run rt0 world_jira_refuses).1) as [|j rest] eqn:Hf;
    [by vm_compute in Hf|].
  destruct (proj1 (proj2 (comment_only_after_ticket_created rt0 world_jira_refuses))
              j rest refusal Hf eq_refl eq_refl) as [Hout ->].
  exists j. split; [reflexivity|exact Hout].
Defined.

(** ** The shape of a sanitized label *)

Section SanitizedLabels.

Implicit Types (p : ascii → bool) (s : list ascii).

(** The chain of replacements, step by step. *)
Lemma sanitize_units_steps s :
  sanitize_units s =
  SanitizeSpec.strip_hyphens
    (SanitizeSpec.collapse_runs is_hyphen false
      (SanitizeSpec.replace_outside
        (SanitizeSpec.collapse_runs is_space false (map to_lower s)))).
Proof.
  unfold sanitize_units, toLowerCase. unfold replace_all at 2 3 4.
  unfold re_whitespace, re_hyphens, re_disallowed.
  rewrite !replace_plus_collapse, replace_class_map.
  rewrite strip_edges_no_double by apply collapse_hyphens_no_double.
  do 2 f_equal. unfold SanitizeSpec.replace_outside.
  apply map_ext. intros c. by destruct (is_label_char c).
Qed.

Lemma is_hyphen_eq c : is_hyphen c = true → c = hyphen.
Proof. by destruct c as [[] [] [] [] [] [] [] []]. Qed.

Lemma label_char_lower c : is_label_char c = true → to_lower c = c.
Proof. by destruct c as [[] [] [] [] [] [] [] []]. Qed.

Lemma label_char_not_space c : is_label_char c = true → is_space c = false.
Proof. by destruct c as [[] [] [] [] [] [] [] []]. Qed.

Lemma space_not_word c : is_space c = true → is_word c = false.
Proof. by destruct c as [[] [] [] [] [] [] [] []]. Qed.

Lemma drop_class_Forall (q : ascii → Prop) p s :
  Forall q s → Forall q (drop_class p s).
Proof.
  induction 1 as [|c s Hc Hs IH]; simpl; [constructor|].
  destruct (p c); [done|by constructor].
Qed.

Lemma drop_class_no_double s :
  no_double_hyphen s = true → no_double_hyphen (drop_class is_hyphen s) = true.
Proof.
  induction s as [|c s IH]; [done|]. intros Hs.
  simpl. destruct (is_hyphen c); [|done].
  apply IH. destruct s as [|d t]; [done|].
  by apply andb_prop in Hs as [_ Hs].
Qed.

Lemma drop_class_head p s c rest :
  drop_class p s = c :: rest → p c = false.
Proof.
  induction s as [|d s IH]; simpl; [done|].
  destruct (p d) eqn:Hd; [done|]. by intros [= <- _].
Qed.

Lemma drop_class_id p s :
  (∀ c rest, s = c :: rest → p c = false) → drop_class p s = s.
Proof.
  destruct s as [|c s]; [done|]. intros H. simpl. by rewrite (H c s eq_refl).
Qed.

Lemma drop_last_hyphen_Forall (q : ascii → Prop) s :
  Forall q s → Forall q (drop_last_hyphen s).
Proof.
  induction 1 as [|c s Hc Hs IH]; [constructor|].
  destruct s as [|d t].
  - simpl. destruct (is_hyphen c); by repeat constructor.
  - change (drop_last_hyphen (c :: d :: t)) with (c :: drop_last_hyphen (d :: t)).
    by constructor.
Qed.

Lemma drop_last_hyphen_cases s :
  no_double_hyphen s = true →
  no_double_hyphen (drop_last_hyphen s) = true ∧
  (∀ c front, drop_last_hyphen s = front ++ [c] → is_hyphen c = false) ∧
  (∀ c rest, s = c :: rest → is_hyphen c = false →
             ∃ rest', drop_last_hyphen s = c :: rest').
Proof.
  induction s as [|c s IH] using rev_ind.
  { intros _. split_and!; [done| |by intros ? ? [=]].
    intros c front H. by destruct front. }
  intros Hnd. rewrite drop_last_hyphen_snoc.
  pose proof (no_double_hyphen_app_l _ _ Hnd) as Hs.
  destruct (is_hyphen c) eqn:Hc.
  - split_and!; [done| |].
    + intros d front ->. destruct (is_hyphen d) eqn:Hd; [|done].
      rewrite <- app_assoc in Hnd. apply no_double_hyphen_last in Hnd.
      by rewrite Hd, Hc in Hnd.
    + intros d rest Heq Hd. destruct s as [|e s]; simplify_eq/=; [congruence|].
      by eexists.
  - split_and!; [done| |].
    + by intros d front [-> <-]%app_inj_tail.
    + intros d rest Heq Hd. destruct s as [|e s]; simplify_eq/=; by eexists.
Qed.

End SanitizedLabels.

Section SanitizedLabelFacts.

Implicit Types (p : ascii → bool) (s : list ascii).

Lemma collapse_runs_Forall (q : ascii → Prop) p b s :
  q hyphen → Forall q s → Forall q (SanitizeSpec.collapse_runs p b s).
Proof.
  intros Hq Hs. revert b. induction Hs as [|c s Hc Hs IH]; intros b; simpl; [constructor|].
  destruct (p c); [destruct b|]; try constructor; auto.
Qed.

Lemma sanitize_units_well_formed s :
  Forall (λ c, is_label_char c = true) (sanitize_units s) ∧
  no_double_hyphen (sanitize_units s) = true ∧
  (∀ c rest, sanitize_units s = c :: rest → is_hyphen c = false) ∧
  (∀ c front, sanitize_units s = front ++ [c] → is_hyphen c = false).
Proof.
  rewrite sanitize_units_steps. unfold SanitizeSpec.strip_hyphens.
  set (u := SanitizeSpec.collapse_runs is_hyphen false _).
  assert (Forall (λ c, is_label_char c = true) u) as Hlabel.
  { apply collapse_runs_Forall; [done|]. unfold SanitizeSpec.replace_outside.
    apply Forall_map. apply Forall_forall. intros d _.
    by destruct (is_label_char d) eqn:Hd. }
  assert (no_double_hyphen u = true) as Hnd by apply collapse_hyphens_no_double.
  clearbody u.
  pose proof (drop_class_no_double u Hnd) as Hnd'.
  pose proof (drop_class_Forall _ is_hyphen u Hlabel) as Hlabel'.
  pose proof (drop_class_head is_hyphen u) as Hhead.
  rewrite strip_trailing_no_double by done.
  destruct (drop_last_hyphen_cases _ Hnd') as (Hnd'' & Hlast & Hkeep).
  split_and!; [by apply drop_last_hyphen_Forall|done| |done].
  intros c rest Heq.
  destruct (drop_class is_hyphen u) as [|d v] eqn:Hv; [done|].
  pose proof (Hhead d v eq_refl) as Hd.
  destruct (Hkeep d v eq_refl Hd) as [rest' Hrest]. congruence.
Qed.

Lemma collapse_runs_none p b s :
  Forall (λ c, p c = false) s → SanitizeSpec.collapse_runs p b s = s.
Proof.
  intros Hs. revert b. induction Hs as [|c s Hc Hs IH]; intros b; simpl; [done|].
  by rewrite Hc, IH.
Qed.

Lemma collapse_hyphens_id s :
  no_double_hyphen s = true →
  SanitizeSpec.collapse_runs is_hyphen false s = s ∧
  ((∀ c rest, s = c :: rest → is_hyphen c = false) →
   SanitizeSpec.collapse_runs is_hyphen true s = s).
Proof.
  induction s as [|c s IH]; [done|]. intros Hnd.
  assert (no_double_hyphen s = true) as Hs.
  { destruct s as [|d t]; [done|]. by apply andb_prop in Hnd as [_ ?]. }
  destruct (IH Hs) as [IH1 IH2]. simpl.
  destruct (is_hyphen c) eqn:Hc.
  - split; [|intros H; by rewrite (H c s eq_refl) in Hc].
    rewrite (is_hyphen_eq c Hc). f_equal. apply IH2.
    intros d rest ->. apply andb_prop in Hnd as [Hnd _].
    rewrite Hc in Hnd. simpl in Hnd. by apply negb_true_iff in Hnd.
  - by rewrite IH1.
Qed.

(** A well-formed label is left as it is. *)
Lemma sanitize_units_fixed s :
  Forall (λ c, is_label_char c = true) s →
  no_double_hyphen s = true →
  (∀ c rest, s = c :: rest → is_hyphen c = false) →
  (∀ c front, s = front ++ [c] → is_hyphen c = false) →
  sanitize_units s = s.
Proof.
  intros Hlabel Hnd Hhead Hlast. rewrite sanitize_units_steps.
  assert (map to_lower s = s) as ->.
  { clear -Hlabel. induction Hlabel as [|c s Hc Hs IH]; simpl; [done|].
    by rewrite IH, label_char_lower. }
  rewrite (collapse_runs_none is_space)
    by (eapply Forall_impl; [exact Hlabel|apply label_char_not_space]).
  assert (SanitizeSpec.replace_outside s = s) as ->.
  { clear -Hlabel. unfold SanitizeSpec.replace_outside.
    induction Hlabel as [|c s Hc Hs IH]; simpl; [done|]. by rewrite IH, Hc. }
  rewrite (proj1 (collapse_hyphens_id s Hnd)).
  unfold SanitizeSpec.strip_hyphens. rewrite (drop_class_id is_hyphen s Hhead).
  rewrite drop_class_id; [apply rev_involutive|].
  intros c rest Hrev. apply (Hlast c (rev rest)).
  rewrite <- (rev_involutive s), Hrev. done.
Qed.

Lemma strip_class_nil_iff p s :
  rev (drop_class p (rev (drop_class p s))) = [] ↔ Forall (λ c, p c = true) s.
Proof.
  split.
  - intros H. apply (f_equal (@rev ascii)) in H. rewrite rev_involutive in H.
    simpl in H. apply drop_class_nil_iff in H.
    apply Forall_rev in H. rewrite rev_involutive in H.
    apply drop_class_nil_iff. rewrite <- drop_class_idem.
    by apply drop_class_nil_iff.
  - intros H. apply drop_class_nil_iff in H. by rewrite H.
Qed.

Lemma collapse_runs_Forall_inv (q : ascii → Prop) p b s :
  q hyphen → (∀ c, p c = true → q c) →
  Forall q (SanitizeSpec.collapse_runs p b s) → Forall q s.
Proof.
  intros Hq Hp. revert b. induction s as [|c s IH]; intros b; simpl; [done|].
  destruct (p c) eqn:Hc.
  - destruct b.
    + intros H. constructor; [by apply Hp|by eapply IH].
    + intros H. inversion H; subst. constructor; [by apply Hp|by eapply IH].
  - intros H. inversion H; subst. constructor; [done|by eapply IH].
Qed.

Lemma sanitize_units_nil_iff s :
  sanitize_units s = [] ↔ Forall (λ c, is_word (to_lower c) = false) s.
Proof.
  rewrite sanitize_units_steps. unfold SanitizeSpec.strip_hyphens.
  rewrite strip_class_nil_iff.
  assert (∀ t, Forall (λ c, is_hyphen c = true) (SanitizeSpec.replace_outside t) ↔
               Forall (λ c, is_word c = false) t) as Hout.
  { intros t. unfold SanitizeSpec.replace_outside. rewrite Forall_map.
    apply Forall_iff. intros c. unfold is_word.
    destruct (is_label_char c); simpl; [|done].
    by destruct (is_hyphen c). }
  split.
  - intros H.
    apply (collapse_runs_Forall_inv (λ c, is_hyphen c = true)) in H; [|done..].
    apply Hout in H.
    apply (collapse_runs_Forall_inv (λ c, is_word c = false)) in H;
      [|done|apply space_not_word].
    by apply Forall_map in H.
  - intros H. apply collapse_runs_Forall; [done|]. apply Hout.
    apply collapse_runs_Forall; [done|]. by apply Forall_map.
Qed.

End SanitizedLabelFacts.

(** X1. Whatever value it is given, [sanitizeLabel] returns a label made of
    the characters [[a-z0-9-_]] only, without two hyphens in a row and
    without a hyphen at either end. *)
Theorem sanitizeLabel_well_formed (v : jsval) :
  let label := list_ascii_of_string (sanitizeLabel v) in
  Forall (λ c, is_label_char c = true) label ∧
  no_double_hyphen label = true ∧
  (∀ c rest, label = c :: rest → is_hyphen c = false) ∧
  (∀ c front, label = front ++ [c] → is_hyphen c = false).
Proof.
  unfold sanitizeLabel, sanitize_string.
  rewrite list_ascii_of_string_of_list_ascii. apply sanitize_units_well_formed.
Qed.

Lemma sanitizeLabel_well_formed_witness :
  is_hyphen "p"%char = false.
Proof.
  apply (proj1 (proj2 (proj2 (sanitizeLabel_well_formed (JStr "--Pixel 8 Pro!--"))))
           "p"%char (list_ascii_of_string "ixel-8-pro")).
  reflexivity.
Defined.

(** X2. [sanitizeLabel] is idempotent: sanitizing a sanitized label changes
    nothing. *)
Theorem sanitizeLabel_idempotent (v : jsval) :
  sanitizeLabel (JStr (sanitizeLabel v)) = sanitizeLabel v.
Proof.
  unfold sanitizeLabel, sanitize_string. cbn [ToString].
  f_equal. rewrite list_ascii_of_string_of_list_ascii.
  destruct (sanitize_units_well_formed (list_ascii_of_string (ToString v)))
    as (H1 & H2 & H3 & H4).
  by apply sanitize_units_fixed.
Qed.

(** X3. [sanitizeLabel] returns the empty label exactly for the texts
    that hold no letter, digit or underscore once lowercased. *)
Theorem sanitizeLabel_empty_iff (s : string) :
  sanitizeLabel (JStr s) = EmptyString ↔
  Forall (λ c, is_word (to_lower c) = false) (list_ascii_of_string s).
Proof.
  unfold sanitizeLabel, sanitize_string. cbn [ToString].
  rewrite <- sanitize_units_nil_iff.
  by destruct (sanitize_units (list_ascii_of_string s)).
Qed.

Lemma sanitizeLabel_empty_iff_witness :
  sanitizeLabel (JStr "?! - ...") = EmptyString.
Proof.
  apply (proj2 (sanitizeLabel_empty_iff "?! - ...")).
  simpl. repeat constructor.
Defined.

(** ** The base labels come first *)

Lemma fold_add_new_members (l acc : list string) :
  ∃ k, fold_left StrSet.add l acc = acc ++ k ∧
       ∀ x, x ∈ k → x ∈ l ∧ x ∉ acc.
Proof.
  revert acc. induction l as [|y l IH]; intros acc; simpl.
  - exists []. split; [by rewrite app_nil_r|]. by intros x ?%elem_of_nil.
  - destruct (IH (StrSet.add acc y)) as (k & -> & Hk). unfold StrSet.add in *.
    case_bool_decide as Hy.
    + exists k. split; [done|]. intros x Hx. destruct (Hk x Hx) as [? ?].
      split; [by right|done].
    + exists (y :: k). split; [by rewrite <- app_assoc|].
      intros x [->|Hx]%elem_of_cons; [split; [by left|done]|].
      destruct (Hk x Hx) as [? Hnot]. split; [by right|].
      intros ?. apply Hnot, elem_of_app. by left.
Qed.

(** X4. The Jira label set always starts with the five base labels, in
    their order; what follows are at most 45 sanitized GitHub labels, none
    of them equal to a base label.  So GitHub labels never displace a base
    label, and an issue without labels gets exactly the five. *)
Theorem jiraLabels_base_first (issueNumber effective : jsval) (ghLabels : list jsval) :
  (∃ more,
     jiraLabels issueNumber effective ghLabels = base_labels issueNumber effective ++ more ∧
     length more ≤ 45 ∧
     ∀ x, x ∈ more →
          x ∈ map sanitizeLabel ghLabels ∧ x ∉ base_labels issueNumber effective) ∧
  jiraLabels issueNumber effective [] = base_labels issueNumber effective.
Proof.
  assert (∀ gh, ∃ more,
     jiraLabels issueNumber effective gh = base_labels issueNumber effective ++ more ∧
     length more ≤ 45 ∧
     ∀ x, x ∈ more →
          x ∈ map sanitizeLabel gh ∧ x ∉ base_labels issueNumber effective) as H.
  { intros gh. unfold jiraLabels, StrSet.to_list, StrSet.of_list.
    rewrite label_candidates_base, fold_left_app.
    fold (StrSet.of_list (base_labels issueNumber effective)).
    rewrite of_list_NoDup_id by apply base_labels_NoDup.
    destruct (fold_add_new_members (map sanitizeLabel gh)
                (base_labels issueNumber effective)) as (k & -> & Hk).
    exists (take 45 k). split_and!.
    - by rewrite take_app.
    - rewrite length_take. lia.
    - intros x Hx%subseteq_take. by apply Hk. }
  split; [apply H|].
  destruct (H []) as (more & -> & _ & Hmore).
  destruct more as [|x more]; [by rewrite app_nil_r|].
  destruct (Hmore x) as [Hx _]; [by left|]. by apply elem_of_nil in Hx.
Qed.

Lemma jiraLabels_base_first_witness :
  jiraLabels (JNum 7) (JStr "14.2.0") [JStr "Android"; JStr "CMP"; JStr "crash"] =
    base_labels (JNum 7) (JStr "14.2.0") ++ ["crash"].
Proof.
  destruct (proj1 (jiraLabels_base_first (JNum 7) (JStr "14.2.0")
                     [JStr "Android"; JStr "CMP"; JStr "crash"]))
    as (more & Heq & _ & _).
  rewrite Heq. f_equal.
  apply (app_inv_head (base_labels (JNum 7) (JStr "14.2.0"))).
  rewrite <- Heq. reflexivity.
Defined.

(** ** The field log and the GitHub labels *)

Lemma obj_get_tabulate (f : string → jsval) (ids : list string) (k : string) :
  obj_get (map (λ id, (id, f id)) ids) k =
  if bool_decide (k ∈ ids) then f k else JUndefined.
Proof.
  induction ids as [|id ids IH]; simpl; [done|].
  destruct (String.eqb_spec id k) as [->|Hne].
  - rewrite bool_decide_eq_true_2; [done|by left].
  - rewrite IH, (bool_decide_ext (k ∈ id :: ids) (k ∈ ids)); [done|].
    rewrite elem_of_cons. intuition congruence.
Qed.

(** X5. The field log holds exactly the thirteen field ids, in their fixed
    order, each with its display value; any other id of the parsed form is
    ignored, so two forms that agree on the thirteen ids give the same
    log. *)
Theorem fieldLog_fixed_ids (form : list (string * jsval)) :
  map fst (fieldLog form) = FIELD_IDS ∧
  (∀ id, id ∈ FIELD_IDS → obj_get (fieldLog form) id = valueOrMissing form id) ∧
  (∀ id, id ∉ FIELD_IDS → obj_get (fieldLog form) id = JUndefined) ∧
  (∀ form',
     (∀ id, id ∈ FIELD_IDS → obj_get form id = obj_get form' id) →
     fieldLog form = fieldLog form').
Proof.
  split_and!.
  - done.
  - intros id Hid. unfold fieldLog. rewrite obj_get_tabulate.
    by rewrite bool_decide_eq_true_2.
  - intros id Hid. unfold fieldLog. rewrite obj_get_tabulate.
    by rewrite bool_decide_eq_false_2.
  - intros form' Hagree. unfold fieldLog. apply map_ext_in.
    intros id Hid%list_elem_of_In. unfold valueOrMissing. by rewrite Hagree.
Qed.

Lemma fieldLog_fixed_ids_witness :
  fieldLog [("device", JStr "Pixel 8"); ("favourite-colour", JStr "blue")] =
  fieldLog [("device", JStr "Pixel 8")] ∧
  obj_get (fieldLog [("device", JStr "Pixel 8"); ("favourite-colour", JStr "blue")])
    "favourite-colour" = JUndefined.
Proof.
  pose proof (fieldLog_fixed_ids
                [("device", JStr "Pixel 8"); ("favourite-colour", JStr "blue")]) as H.
  split.
  - apply (proj2 (proj2 (proj2 H))). intros id Hid.
    unfold FIELD_IDS in Hid. rewrite !elem_of_cons, elem_of_nil in Hid.
    repeat (destruct Hid as [->|Hid]; [reflexivity|]). destruct Hid.
  - apply (proj1 (proj2 (proj2 H))). unfold FIELD_IDS.
    apply (bool_decide_unpack _). vm_compute. exact I.
Defined.

(** X6. A display value is always a string or a checkbox object with
    exactly the keys [selected] and [unselected]: never undefined, null, a
    number or an array.  The object case arises only for a raw object whose
    [selected] is an array; both sub-values are passed through as they are
    and the other keys of the raw object are dropped. *)
Theorem valueOrMissing_string_or_checkbox (form : list (string * jsval)) (id : string) :
  (∃ s, valueOrMissing form id = JStr s) ∨
  (∃ props sel,
     obj_get form id = JObj props ∧
     obj_get props "selected" = JArr sel ∧
     ¬ (sel = [] ∧ obj_get props "unselected" = JArr []) ∧
     valueOrMissing form id =
       JObj [ ("selected", JArr sel); ("unselected", obj_get props "unselected") ]).
Proof.
  unfold valueOrMissing.
  destruct (isMissing (obj_get form id)) eqn:Hm; [by left; eexists|].
  destruct (obj_get form id) as [| |b|n|s|l|props]; try (by left; eexists).
  unfold normalizeValue. simpl. rewrite !get_or_undef_obj.
  destruct (obj_get props "selected") as [| |?|?|?|sel|?] eqn:Hsel;
    try (by left; eexists).
  right. exists props, sel. split_and!; [done..| |done].
  intros [-> Huns]. unfold isMissing in Hm. simpl in Hm.
  rewrite !get_or_undef_obj, Hsel, Huns in Hm. done.
Qed.

(** X7. The GitHub label names: an issue without [labels] has none; for a
    list of label objects the names are read in order and the falsy ones
    (absent or empty names) are dropped, so a label without a name never
    becomes a Jira label; a [null] among the labels, or [labels] that is not
    a list, is a TypeError. *)
Theorem ghLabels_of_cases (issue : jsval) :
  (nullish (get_or_undef issue "labels") = true → ghLabels_of issue = Some []) ∧
  (∀ ls,
     get_or_undef issue "labels" = JArr ls →
     Forall (λ l, nullish l = false) ls →
     ghLabels_of issue =
       Some (filter (λ n, truthy n = true) (map (λ l, get_or_undef l "name") ls))) ∧
  (∀ ls,
     get_or_undef issue "labels" = JArr ls →
     Exists (λ l, nullish l = true) ls →
     ghLabels_of issue = None) ∧
  (nullish (get_or_undef issue "labels") = false →
   isArray (get_or_undef issue "labels") = false →
   ghLabels_of issue = None) ∧
  (∀ names, ghLabels_of issue = Some names → Forall (λ n, truthy n = true) names).
Proof.
  unfold ghLabels_of. split_and!.
  - intros Hn. unfold coalesce. by rewrite Hn.
  - intros ls -> Hls. simpl.
    assert (mapM (λ l, get l "name") ls = Some (map (λ l, get_or_undef l "name") ls)) as ->;
      [|done].
    induction Hls as [|l ls Hl Hls IH]; [done|]. simpl. rewrite IH.
    by destruct l.
  - intros ls -> Hls. simpl.
    assert (mapM (λ l, get l "name") ls = None) as ->; [|done].
    induction Hls as [l ls Hl|l ls Hls IH]; simpl.
    + by destruct l.
    + rewrite IH. by destruct (get l "name").
  - intros Hn Ha. unfold coalesce. rewrite Hn.
    by destruct (get_or_undef issue "labels").
  - intros names.
    destruct (coalesce _ _); try done.
    destruct (mapM _ _) as [all|]; simpl; [|done].
    intros [= <-]. apply Forall_forall. by intros n [? _]%list_elem_of_filter.
Qed.

Lemma ghLabels_of_cases_witness :
  ghLabels_of
    (JObj [ ("labels", JArr [ JObj [ ("name", JStr "bug") ];
                              JObj [ ("id", JNum 3) ];
                              JObj [ ("name", JStr EmptyString) ] ]) ])
    = Some [JStr "bug"].
Proof.
  apply (proj1 (proj2 (ghLabels_of_cases _))
           [ JObj [ ("name", JStr "bug") ]; JObj [ ("id", JNum 3) ];
             JObj [ ("name", JStr EmptyString) ] ]).
  - reflexivity.
  - repeat constructor.
Defined.

(** ** The base URL and the repository name *)

Lemma list_ascii_of_string_app (a b : string) :
  list_ascii_of_string (a +:+ b) = list_ascii_of_string a ++ list_ascii_of_string b.
Proof.
  induction a as [|c a IH]; [done|].
  unfold String.append in *. simpl. by rewrite IH.
Qed.

Lemma string_of_list_ascii_app (a b : list ascii) :
  string_of_list_ascii (a ++ b) = string_of_list_ascii a +:+ string_of_list_ascii b.
Proof.
  induction a as [|c a IH]; [done|].
  unfold String.append in *. simpl. by rewrite IH.
Qed.

Lemma replace_first_trailing_slash (l : list ascii) (b : bool) :
  replace_first (RSeq (RClass (Ascii.eqb slash)) REol) [] b (l ++ [slash]) = l.
Proof.
  revert b. induction l as [|c l IH]; intros b; [done|].
  change ((c :: l) ++ [slash]) with (c :: (l ++ [slash])).
  cbn [replace_first]. unfold exec. cbn [rmatch]. rewrite IH.
  destruct (Ascii.eqb slash c); [|done]. by destruct l.
Qed.

Lemma replace_first_no_trailing_slash (l : list ascii) (b : bool) :
  (∀ l', l ≠ l' ++ [slash]) →
  replace_first (RSeq (RClass (Ascii.eqb slash)) REol) [] b l = l.
Proof.
  revert b. induction l as [|c l IH]; intros b Hl; [done|].
  assert (replace_first (RSeq (RClass (Ascii.eqb slash)) REol) [] false l = l) as Htail.
  { apply IH. intros l' ->. by apply (Hl (c :: l')). }
  cbn [replace_first]. unfold exec. cbn [rmatch].
  destruct (Ascii.eqb_spec slash c) as [<-|Hne]; [|by rewrite Htail].
  destruct l as [|d l]; [by destruct (Hl [])|]. by rewrite Htail.
Qed.

(** X8. [JIRA_BASE_URL] loses one trailing slash and nothing else: a value
    ending in a slash is cut by exactly that slash (of two trailing slashes
    one stays), any other value is kept as it is. *)
Theorem strip_trailing_slash_one (s : string) :
  strip_trailing_slash (s +:+ "/") = s ∧
  ((∀ t, s ≠ t +:+ "/") → strip_trailing_slash s = s).
Proof.
  unfold strip_trailing_slash. split.
  - rewrite list_ascii_of_string_app.
    change (list_ascii_of_string "/") with [slash].
    rewrite replace_first_trailing_slash. apply string_of_list_ascii_of_string.
  - intros Hs. rewrite replace_first_no_trailing_slash.
    + apply string_of_list_ascii_of_string.
    + intros l' Hl. apply (Hs (string_of_list_ascii l')).
      rewrite <- (string_of_list_ascii_of_string s), Hl.
      by rewrite string_of_list_ascii_app.
Qed.

Lemma strip_trailing_slash_one_witness :
  strip_trailing_slash "https://osano.atlassian.net" = "https://osano.atlassian.net".
Proof.
  apply (proj2 (strip_trailing_slash_one "https://osano.atlassian.net")).
  intros t Ht. apply (f_equal list_ascii_of_string) in Ht.
  rewrite list_ascii_of_string_app in Ht.
  apply (f_equal (@rev ascii)) in Ht. rewrite rev_app_distr in Ht.
  discriminate Ht.
Defined.

Lemma split_go_nonempty (cur s : list ascii) : split_go cur s ≠ [].
Proof.
  revert cur. induction s as [|c s IH]; intros cur; simpl; [done|].
  destruct (Ascii.eqb c slash); [done|apply IH].
Qed.

Lemma split_go_concat (cur s : list ascii) :
  String.concat "/" (map string_of_list_ascii (split_go cur s)) =
  string_of_list_ascii (rev cur ++ s).
Proof.
  revert cur. induction s as [|c s IH]; intros cur; simpl.
  - by rewrite app_nil_r.
  - destruct (Ascii.eqb_spec c slash) as [->|Hne].
    + pose proof (split_go_nonempty [] s) as Hne.
      specialize (IH []). simpl in IH |- *.
      destruct (split_go [] s) as [|part parts]; [done|].
      cbn [map] in *. rewrite IH, string_of_list_ascii_app. done.
    + rewrite IH. simpl. by rewrite <- app_assoc.
Qed.

Lemma split_go_no_slash (cur s : list ascii) :
  Forall (λ c, c ≠ slash) s → split_go cur s = [rev cur ++ s].
Proof.
  intros Hs. revert cur. induction Hs as [|c s Hc Hs IH]; intros cur; simpl.
  - by rewrite app_nil_r.
  - destruct (Ascii.eqb_spec c slash) as [->|_]; [done|].
    rewrite IH. simpl. by rewrite <- app_assoc.
Qed.

Lemma split_go_first (cur a b : list ascii) :
  Forall (λ c, c ≠ slash) a →
  split_go cur (a ++ slash :: b) = (rev cur ++ a) :: split_go [] b.
Proof.
  intros Ha. revert cur. induction Ha as [|c a Hc Ha IH]; intros cur; simpl.
  - by rewrite app_nil_r.
  - destruct (Ascii.eqb_spec c slash) as [->|_]; [done|].
    rewrite IH. simpl. by rewrite <- app_assoc.
Qed.

(** X9. Splitting [GITHUB_REPOSITORY] at the slashes loses nothing: joining
    the parts with a slash gives the value back.  A value without a slash is
    a single part (so the repository is undefined), and [owner/repo] with a
    slash-free owner and repository gives exactly these two parts. *)
Theorem split_slash_parts (s : string) :
  join "/" (split_slash s) = s ∧
  (Forall (λ c, c ≠ slash) (list_ascii_of_string s) →
   split_slash s = [JStr s] ∧ split_slash s !! 1 = None) ∧
  (∀ owner repo,
     s = owner +:+ "/" +:+ repo →
     Forall (λ c, c ≠ slash) (list_ascii_of_string owner) →
     Forall (λ c, c ≠ slash) (list_ascii_of_string repo) →
     split_slash s = [JStr owner; JStr repo]).
Proof.
  unfold split_slash. split_and!.
  - unfold join. rewrite map_map. simpl.
    rewrite split_go_concat. apply string_of_list_ascii_of_string.
  - intros Hs. rewrite split_go_no_slash by done. simpl.
    by rewrite string_of_list_ascii_of_string.
  - intros owner repo -> Ho Hr.
    rewrite !list_ascii_of_string_app.
    change (list_ascii_of_string "/") with [slash]. simpl.
    rewrite split_go_first, split_go_no_slash by done. simpl.
    by rewrite !string_of_list_ascii_of_string.
Qed.

Lemma split_slash_parts_witness :
  split_slash "osano/osano-sdk-support" = [JStr "osano"; JStr "osano-sdk-support"].
Proof.
  apply (proj2 (proj2 (split_slash_parts "osano/osano-sdk-support"))
           "osano" "osano-sdk-support").
  - reflexivity.
  - simpl. repeat constructor; discriminate.
  - simpl. repeat constructor; discriminate.
Defined.

(** ** The ticket summary *)

Lemma drop_class_app_all (p : ascii → bool) (a b : list ascii) :
  Forall (λ c, p c = true) a → drop_class p (a ++ b) = drop_class p b.
Proof. induction 1 as [|c a Hc Ha IH]; simpl; [done|]. by rewrite Hc. Qed.

Lemma drop_class_app_some (p : ascii → bool) (a b : list ascii) :
  ¬ Forall (λ c, p c = true) a → drop_class p (a ++ b) = drop_class p a ++ b.
Proof.
  induction a as [|c a IH]; intros Ha; simpl.
  - destruct Ha. constructor.
  - destruct (p c) eqn:Hc; [|done]. apply IH. intros Hall. apply Ha. by constructor.
Qed.

(** X10. The ticket summary is [[Android SDK]] followed by the issue title,
    trimmed as a whole: a blank (or empty) title leaves just
    [[Android SDK]], without the separating space; otherwise the title
    follows the prefix and one space, keeps its own leading whitespace and
    loses its trailing whitespace. *)
Theorem jiraPayload_summary (rt : Runtime) (cfg : Config)
    (repoFull issueNumber issueTitle issueUrl : jsval) (priority : string)
    (labels : list string) (description : list jsval) :
  let summary :=
    summary_of (jiraPayload rt cfg repoFull issueNumber issueTitle issueUrl
                  priority labels description) in
  (blank (ToString issueTitle) → summary = JStr "[Android SDK]") ∧
  (¬ blank (ToString issueTitle) →
   summary = JStr ("[Android SDK] " +:+ trim_end (ToString issueTitle))).
Proof.
  intros summary. subst summary. unfold summary_of, jiraPayload. simpl.
  unfold trim, trim_units, blank, trim_end.
  rewrite list_ascii_of_string_app.
  set (t := list_ascii_of_string (ToString issueTitle)).
  set (pre := list_ascii_of_string "[Android SDK] ").
  assert (drop_class is_space (pre ++ t) = pre ++ t) as -> by done.
  rewrite rev_app_distr. split.
  - intros Ht. rewrite drop_class_app_all by by apply Forall_rev.
    done.
  - intros Ht. rewrite drop_class_app_some.
    + rewrite rev_app_distr, rev_involutive, string_of_list_ascii_app. done.
    + intros Hall. apply Ht. apply Forall_rev in Hall. by rewrite rev_involutive in Hall.
Qed.

Lemma jiraPayload_summary_witness :
  summary_of
    (jiraPayload rt0
       {| JIRA_BASE_URL := "https://jira.example"; JIRA_EMAIL := JStr "bot@example.com";
          JIRA_API_TOKEN := JStr "secret"; JIRA_PROJECT_KEY := JStr "SDK";
          JIRA_ISSUE_TYPE := JStr "Bug"; GITHUB_TOKEN := JStr "ghs" |}
       (JStr "osano/sdk") (JNum 42) (JStr "   ") (JStr EmptyString)
       "Medium" [] [])
    = JStr "[Android SDK]".
Proof.
  apply (proj1 (jiraPayload_summary rt0 _ (JStr "osano/sdk") (JNum 42) (JStr "   ")
                  (JStr EmptyString) "Medium" [] [])).
  unfold blank. simpl. repeat constructor.
Defined.

(** ** The run: the order of its events *)

Section TraceShape.

Variable rt : Runtime.
Variable w : World.

Lemma tt_bind {A B} (P : list event → Prop) (m : M A) (f : A → M B)
    (Q : A → list event → Prop) (R : B → list event → Prop)
    (E : exn → list event → Prop) :
  trace_triple P m Q E → (∀ a, trace_triple (Q a) (f a) R E) →
  trace_triple P (m ≫= f) R E.
Proof.
  intros Hm Hf tr HP. rewrite bind_run. specialize (Hm tr HP).
  destruct (m tr) as [tr' [a|e]]; [|done]. by apply Hf.
Qed.

Lemma tt_ret {A} (P : list event → Prop) (a : A) E :
  trace_triple P (mret a) (λ _, P) E.
Proof. by intros tr HP. Qed.

Lemma tt_throw {A} n (e : exn) (Q : A → list event → Prop) :
  n ≤ 8 → trace_triple (at_step n) (throw e) Q stopped_early.
Proof. intros Hn tr HP. by exists n. Qed.

Lemma at_step_snoc n tr e :
  run_shape !! n = Some (kind_of e) → at_step n tr → at_step (S n) (tr ++ [e]).
Proof.
  unfold at_step. intros Hk Htr. rewrite map_app, Htr.
  by rewrite (take_S_r _ _ _ Hk).
Qed.

Lemma tt_emit n e E :
  run_shape !! n = Some (kind_of e) →
  trace_triple (at_step n) (emit e) (λ _, at_step (S n)) E.
Proof. intros Hk tr HP. by apply at_step_snoc. Qed.

Lemma tt_requiredEnv n name :
  n ≤ 8 →
  trace_triple (at_step n) (requiredEnv w name) (λ _, at_step n) stopped_early.
Proof.
  intros Hn. unfold requiredEnv. destruct (negb _); [by apply tt_throw|apply tt_ret].
Qed.

Lemma tt_readFileSync n path :
  run_shape !! n = Some KRead → S n ≤ 8 →
  trace_triple (at_step n) (readFileSync w path) (λ _, at_step (S n)) stopped_early.
Proof.
  intros Hk Hn. destruct path; try (apply tt_throw; lia).
  simpl. eapply tt_bind; [by apply tt_emit|].
  intros ?. destruct (files w !! s); [apply tt_ret|by apply tt_throw].
Qed.

Lemma tt_fetch n req :
  run_shape !! n = Some KFetch → S n ≤ 8 →
  trace_triple (at_step n) (fetch w req) (λ _, at_step (S n)) stopped_early.
Proof.
  intros Hk Hn tr HP. unfold fetch.
  assert (at_step (S n) (tr ++ [EvFetch req])) by by apply at_step_snoc.
  destruct (network w _ _); [done|]. by exists (S n).
Qed.

Lemma main_trace_steps :
  trace_triple (at_step 0) (main rt w) (λ _, at_step 9) stopped_early.
Proof.
  unfold main.
  do 4 (eapply tt_bind; [apply tt_requiredEnv; lia|intros ?; lazy beta]).
  lazy zeta.
  eapply tt_bind; [apply tt_requiredEnv; lia|intros ?; lazy beta].
  eapply tt_bind; [by apply tt_readFileSync; [|lia]|intros event_text; lazy beta].
  eapply tt_bind.
  { destruct (JSON_parse rt event_text); [apply tt_ret|apply tt_throw; lia]. }
  intros GH_EVENT. lazy beta.
  eapply tt_bind.
  { destruct (get GH_EVENT "issue"); simpl; [apply tt_ret|apply tt_throw; lia]. }
  intros issue. lazy beta.
  destruct (truthy issue); simpl; [|apply tt_throw; lia].
  eapply tt_bind.
  { destruct (process_env w "GITHUB_REPOSITORY");
      first [apply tt_ret|apply tt_throw; lia]. }
  intros parts. lazy beta.
  eapply tt_bind.
  { destruct (ghLabels_of issue); simpl; [apply tt_ret|apply tt_throw; lia]. }
  intros ghLabels. lazy beta.
  eapply tt_bind; [by apply tt_readFileSync; [|lia]|intros templateYaml; lazy beta].
  eapply tt_bind.
  { destruct (parseIssue rt _ templateYaml); [apply tt_ret|apply tt_throw; lia]. }
  intros form. lazy beta.
  do 2 (eapply tt_bind; [by apply tt_emit|intros ?; lazy beta]).
  eapply tt_bind.
  { unfold jiraCreateIssue.
    eapply tt_bind; [by apply tt_fetch; [|lia]|intros res; lazy beta zeta].
    destruct (negb (res_ok res)); [apply tt_throw; lia|].
    destruct (JSON_parse rt (res_text res)); [apply tt_ret|apply tt_throw; lia]. }
  intros created. lazy beta.
  eapply tt_bind.
  { destruct (get created "key"); simpl; [apply tt_ret|apply tt_throw; lia]. }
  intros jiraKey. lazy beta.
  do 2 (eapply tt_bind; [by apply tt_emit|intros ?; lazy beta]).
  eapply tt_bind.
  { unfold ghCreateComment.
    eapply tt_bind; [by apply tt_fetch; [|lia]|intros res; lazy beta zeta].
    destruct (negb (res_ok res)); [apply tt_throw; lia|apply tt_ret]. }
  intros ?. lazy beta. by apply tt_emit.
Qed.

(** X11. The events of any run are an initial part of one fixed sequence:
    the event file is read, then the template file, then the field dump is
    logged in two lines, the ticket request is sent, two lines are logged,
    the comment request is sent, and a last line is logged.  So a run reads
    at most two files and sends at most two requests, logs nothing before
    both files are read, and returns exactly when all nine events took
    place. *)
Theorem run_trace_shape :
  map kind_of (run rt w).1 = take (length (run rt w).1) run_shape ∧
  length (run rt w).1 ≤ 9 ∧
  ((run rt w).2 = Returned tt ↔ length (run rt w).1 = 9).
Proof.
  pose proof (main_trace_steps [] eq_refl) as H. fold (run rt w) in H.
  assert (∀ n tr, n ≤ 9 → at_step n tr → length tr = n) as Hlen.
  { intros n tr Hn Htr. apply (f_equal length) in Htr.
    rewrite length_map, length_take in Htr. simpl in Htr. lia. }
  destruct (run rt w) as [tr [[]|e]]; simpl.
  - pose proof (Hlen 9 tr (le_n _) H) as Hl. rewrite Hl. by split_and!.
  - destruct H as (n & Hn & Htr).
    pose proof (Hlen n tr ltac:(lia) Htr) as Hl. rewrite Hl.
    split_and!; [done|lia|]. split; [done|lia].
Qed.

End TraceShape.

(** ** The run: what the requests are made of *)

Section Requests.

Variable rt : Runtime.
Variable w : World.

Lemma triple_pure {A} (φ : Prop) (P : list request → Prop) (m : M A)
    (Q : A → list request → Prop) (E : exn → list request → Prop) :
  (φ → triple P m Q E) → triple (λ fs, φ ∧ P fs) m Q E.
Proof. intros H tr [Hφ HP]. by apply H. Qed.

Lemma req_throw {A} (e : exn) (Q : A → list request → Prop) :
  triple no_request (throw e) Q (λ _, requests_of_run rt w).
Proof. apply triple_throw. intros fs ->. by left. Qed.

Lemma req_requiredEnv name :
  triple no_request (requiredEnv w name)
    (λ a fs, a = process_env w name ∧ no_request fs) (λ _, requests_of_run rt w).
Proof.
  unfold requiredEnv. destruct (negb _); [apply req_throw|]. by intros tr HP.
Qed.

Lemma req_readFileSync path :
  triple no_request (readFileSync w path) (λ _, no_request) (λ _, requests_of_run rt w).
Proof.
  destruct path; try apply req_throw.
  simpl. eapply triple_bind; [by apply triple_emit_other|].
  intros ?. destruct (files w !! s); [apply triple_ret|apply req_throw].
Qed.

Lemma req_jiraCreateIssue payload :
  triple no_request (jiraCreateIssue rt w (config_of w) payload)
    (λ _ fs, fs = [jira_request rt (config_of w) payload])
    (λ _, requests_of_run rt w).
Proof.
  intros tr HP. unfold no_request in HP.
  assert (fetches (tr ++ [EvFetch (jira_request rt (config_of w) payload)])
          = [jira_request rt (config_of w) payload]) as Hfs
    by by rewrite fetches_snoc_fetch, HP.
  assert (requests_of_run rt w [jira_request rt (config_of w) payload]) as Hone
    by (right; left; by exists payload).
  unfold jiraCreateIssue. rewrite bind_run. unfold fetch.
  destruct (network w _ _) as [res|]; simpl; [|by rewrite Hfs].
  destruct (res_ok res); simpl; [|by rewrite Hfs].
  destruct (JSON_parse rt (res_text res)); simpl; by rewrite Hfs.
Qed.

Lemma req_ghCreateComment payload owner repo n :
  triple (λ fs, fs = [jira_request rt (config_of w) payload])
    (ghCreateComment rt w (config_of w) owner repo n commentBody)
    (λ _ fs, requests_of_run rt w fs ∧ length fs = 2)
    (λ _, requests_of_run rt w).
Proof.
  intros tr HP.
  assert (fetches (tr ++ [EvFetch
            (comment_request rt (config_of w) owner repo n commentBody)])
          = [jira_request rt (config_of w) payload;
             comment_request rt (config_of w) owner repo n commentBody]) as Hfs
    by by rewrite fetches_snoc_fetch, HP.
  assert (requests_of_run rt w
            [jira_request rt (config_of w) payload;
             comment_request rt (config_of w) owner repo n commentBody]) as Hboth
    by (right; right; by exists payload, owner, repo, n).
  unfold ghCreateComment. rewrite bind_run. unfold fetch.
  destruct (network w _ _) as [res|]; simpl; [|by rewrite Hfs].
  destruct (res_ok res); simpl; by rewrite Hfs.
Qed.

Lemma main_requests :
  triple no_request (main rt w)
    (λ _ fs, requests_of_run rt w fs ∧ length fs = 2) (λ _, requests_of_run rt w).
Proof.
  unfold main.
  do 4 (eapply triple_bind;
        [apply req_requiredEnv|intros ?; lazy beta; apply triple_pure; intros ->]).
  lazy zeta.
  eapply triple_bind;
    [apply req_requiredEnv|intros ?; lazy beta; apply triple_pure; intros ->].
  eapply triple_bind; [apply req_readFileSync|intros event_text; lazy beta].
  eapply triple_bind.
  { destruct (JSON_parse rt event_text); [apply triple_ret|apply req_throw]. }
  intros GH_EVENT. lazy beta.
  eapply triple_bind.
  { destruct (get GH_EVENT "issue"); simpl; [apply triple_ret|apply req_throw]. }
  intros issue. lazy beta.
  destruct (truthy issue); simpl; [|apply req_throw].
  eapply triple_bind.
  { destruct (process_env w "GITHUB_REPOSITORY");
      first [apply triple_ret|apply req_throw]. }
  intros parts. lazy beta.
  eapply triple_bind.
  { destruct (ghLabels_of issue); simpl; [apply triple_ret|apply req_throw]. }
  intros ghLabels. lazy beta.
  eapply triple_bind; [apply req_readFileSync|intros templateYaml; lazy beta].
  eapply triple_bind.
  { destruct (parseIssue rt _ templateYaml); [apply triple_ret|apply req_throw]. }
  intros form. lazy beta.
  do 2 (eapply triple_bind; [apply triple_log|intros ?; lazy beta]).
  eapply triple_bind; [apply req_jiraCreateIssue|intros created; lazy beta].
  eapply triple_bind.
  { destruct (get created "key"); simpl; [apply triple_ret|].
    apply triple_throw. intros fs ->. right; left. by eexists. }
  intros jiraKey. lazy beta.
  do 2 (eapply triple_bind; [apply triple_log|intros ?; lazy beta]).
  eapply triple_bind; [apply req_ghCreateComment|intros ?; lazy beta].
  apply triple_log.
Qed.

(** X12. The requests of any run are built from the configuration read
    from the environment: the first, if any, is the ticket request to
    [JIRA_BASE_URL] (less one trailing slash) with the basic credentials of
    [JIRA_EMAIL] and [JIRA_API_TOKEN]; the second, if any, is the comment
    request with the bearer [GITHUB_TOKEN], and its text is always the same
    acknowledgement, whatever the tracker replied: the key and the URL of
    the created ticket are logged but never posted.  A run that returns has
    sent both. *)
Theorem run_requests :
  (fetches (run rt w).1 = [] ∨
   (∃ payload, fetches (run rt w).1 = [jira_request rt (config_of w) payload]) ∨
   (∃ payload owner repo n,
      fetches (run rt w).1 =
        [ jira_request rt (config_of w) payload;
          comment_request rt (config_of w) owner repo n commentBody ])) ∧
  ((run rt w).2 = Returned tt → length (fetches (run rt w).1) = 2).
Proof.
  pose proof (main_requests [] eq_refl) as H. fold (run rt w) in H.
  destruct (run rt w) as [tr [[]|e]]; simpl.
  - by destruct H.
  - split; [exact H|done].
Qed.

End Requests.

(** ** The run: the complete path and the event without an issue *)

Section Paths.

Variable rt : Runtime.
Variable w : World.

Lemma bind_ret {A B} (a : A) (f : A → M B) tr : (mret a ≫= f) tr = f a tr.
Proof. done. Qed.

Lemma bind_log {B} line (f : unit → M B) tr :
  (console_log line ≫= f) tr = f tt (tr ++ [EvLog line]).
Proof. done. Qed.

Lemma bind_readFileSync_ok {B} p text (f : string → M B) tr :
  files w !! p = Some text →
  (readFileSync w (JStr p) ≫= f) tr = f text (tr ++ [EvReadFile p]).
Proof.
  intros Hp. rewrite bind_run. unfold readFileSync. rewrite bind_run.
  unfold emit. by rewrite Hp.
Qed.

Lemma bind_jiraCreateIssue_ok {B} cfg payload res v (f : jsval → M B) tr :
  network w (length (fetches tr)) (jira_request rt cfg payload) = Some res →
  res_ok res = true →
  JSON_parse rt (res_text res) = Some v →
  (jiraCreateIssue rt w cfg payload ≫= f) tr =
  f v (tr ++ [EvFetch (jira_request rt cfg payload)]).
Proof.
  intros Hnet Hok Hparse. rewrite bind_run. unfold jiraCreateIssue.
  rewrite bind_run. unfold fetch. rewrite Hnet, Hok. simpl. by rewrite Hparse.
Qed.

Lemma bind_ghCreateComment_ok {B} cfg owner repo n body res (f : unit → M B) tr :
  network w (length (fetches tr)) (comment_request rt cfg owner repo n body) = Some res →
  res_ok res = true →
  (ghCreateComment rt w cfg owner repo n body ≫= f) tr =
  f tt (tr ++ [EvFetch (comment_request rt cfg owner repo n body)]).
Proof.
  intros Hnet Hok. rewrite bind_run. unfold ghCreateComment.
  rewrite bind_run. unfold fetch. by rewrite Hnet, Hok.
Qed.

Lemma process_env_set name v : env w !! name = Some v → process_env w name = JStr v.
Proof. unfold process_env. by intros ->. Qed.

(** X13. The complete path.  When the required variables are set, the event
    file holds an issue, its labels are well formed, the template file is
    there, the form parser returns a form, the tracker answers the first
    request with a success whose text parses to a value with a [key], and
    the second request is answered with a success, the run returns after
    exactly these nine events: the two reads, the field dump, the ticket
    request carrying the payload built from the issue and the form, the two
    lines about the ticket, the comment request for the issue, and the last
    line. *)
Theorem run_complete (path text tpath yaml repo_full : string)
    (ev issue created key : jsval) (ghLabels : list jsval)
    (form : list (string * jsval)) (res1 res2 : response) :
  (∀ n, n ∈ required_names → truthy (process_env w n) = true) →
  env w !! "GITHUB_EVENT_PATH" = Some path →
  files w !! path = Some text →
  JSON_parse rt text = Some ev →
  get ev "issue" = Some issue →
  truthy issue = true →
  env w !! "GITHUB_REPOSITORY" = Some repo_full →
  ghLabels_of issue = Some ghLabels →
  env w !! "ISSUE_TEMPLATE_PATH" = Some tpath →
  files w !! tpath = Some yaml →
  parseIssue rt (coalesce (get_or_undef issue "body") (JStr EmptyString)) yaml = Some form →
  (∀ req, network w 0 req = Some res1) →
  res_ok res1 = true →
  JSON_parse rt (res_text res1) = Some created →
  get created "key" = Some key →
  (∀ req, network w 1 req = Some res2) →
  res_ok res2 = true →
  let cfg := config_of w in
  let number := get_or_undef issue "number" in
  let title := coalesce (get_or_undef issue "title") (JStr EmptyString) in
  let url := coalesce (get_or_undef issue "html_url") (JStr EmptyString) in
  let parts := split_slash repo_full in
  let browse := JIRA_BASE_URL cfg +:+ "/browse/" +:+ ToString key in
  let payload :=
    jiraPayload rt cfg (JStr repo_full) number title url (jiraPriorityName form)
      (jiraLabels number (effectiveSdkVersion form) ghLabels)
      (descriptionContent rt number (issueAuthor_of issue) url (fieldLog form)) in
  run rt w =
    ([ EvReadFile path;
       EvReadFile tpath;
       EvLog "=== Parsed Issue Form Fields (by ID) ===";
       EvLog (JSON_stringify rt (JObj (fieldLog form)) 2);
       EvFetch (jira_request rt cfg payload);
       EvLog ("Created Jira issue: " +:+ ToString key +:+ " (" +:+ browse +:+ ")");
       EvLog (ticketCreated key browse);
       EvFetch (comment_request rt cfg (default JUndefined (parts !! 0))
                  (default JUndefined (parts !! 1)) number commentBody);
       EvLog "Commented Jira link back on GitHub issue." ],
     Returned tt).
Proof.
  intros Hset Hpath Hfile Hparse Hissue Htruthy Hrepo Hlabels Htpath Hyaml Hform
    Hnet1 Hok1 Hcreated Hkey Hnet2 Hok2.
  intros cfg number title url parts browse payload.
  unfold run, main.
  rewrite !bind_requiredEnv_ok by (apply Hset; unfold required_names; set_solver).
  lazy zeta.
  rewrite (process_env_set _ _ Hpath), (process_env_set _ _ Hrepo),
    (process_env_set _ _ Htpath).
  rewrite (bind_readFileSync_ok _ _ _ _ Hfile).
  rewrite Hparse, bind_ret, Hissue. cbn [or_type_error]. rewrite bind_ret, Htruthy.
  cbn [negb]. rewrite bind_ret, Hlabels. cbn [or_type_error]. rewrite bind_ret.
  rewrite (bind_readFileSync_ok _ _ _ _ Hyaml).
  rewrite Hform, bind_ret, !bind_log.
  rewrite (bind_jiraCreateIssue_ok _ _ res1 created) by done.
  rewrite Hkey. cbn [or_type_error]. rewrite bind_ret, !bind_log.
  rewrite (bind_ghCreateComment_ok _ _ _ _ _ res2) by done.
  reflexivity.
Qed.

(** X14. An event without an issue.  When the required variables are set
    and the event file parses to a value whose [issue] is absent or falsy,
    the run stops right after reading that one file, with
    [No issue in event payload.]: the template is not read and nothing is
    requested. *)
Theorem run_without_issue (path text : string) (ev issue : jsval) :
  (∀ n, n ∈ required_names → truthy (process_env w n) = true) →
  env w !! "GITHUB_EVENT_PATH" = Some path →
  files w !! path = Some text →
  JSON_parse rt text = Some ev →
  get ev "issue" = Some issue →
  truthy issue = false →
  run rt w = ([EvReadFile path], Thrown (Error "No issue in event payload.")).
Proof.
  intros Hset Hpath Hfile Hparse Hissue Hfalsy.
  unfold run, main.
  rewrite !bind_requiredEnv_ok by (apply Hset; unfold required_names; set_solver).
  lazy zeta.
  rewrite (process_env_set _ _ Hpath).
  rewrite (bind_readFileSync_ok _ _ _ _ Hfile).
  rewrite Hparse, bind_ret, Hissue. cbn [or_type_error]. rewrite bind_ret, Hfalsy.
  reflexivity.
Qed.

End Paths.

Lemma run_complete_witness :
  (run rt1 world_success).2 = Returned tt ∧
  map kind_of (run rt1 world_success).1 = run_shape.
Proof.
  pose proof (run_complete rt1 world_success
    "event.json" event_json "bug.yml" "name: Bug" "osano/sdk"
    (JObj [ ("issue", JObj [ ("number", JNum 42) ]) ])
    (JObj [ ("number", JNum 42) ])
    (JObj [ ("key", JStr "SDK-7") ]) (JStr "SDK-7") [] []
    {| res_status := 201; res_text := ticket_json |}
    {| res_status := 201; res_text := "{}" |}) as H.
  rewrite H; [split; reflexivity|..]; try reflexivity.
  intros n Hn. unfold required_names in Hn. rewrite !elem_of_cons, elem_of_nil in Hn.
  destruct Hn as [->|[->|[->|[->|[->|[]]]]]]; reflexivity.
Defined.

Lemma run_without_issue_witness :
  run rt_no_issue world_no_issue =
    ([EvReadFile "event.json"], Thrown (Error "No issue in event payload.")).
Proof.
  apply (run_without_issue rt_no_issue world_no_issue "event.json" "{}"
           (JObj []) JUndefined); try reflexivity.
  intros n Hn. unfold required_names in Hn. rewrite !elem_of_cons, elem_of_nil in Hn.
  destruct Hn as [->|[->|[->|[->|[->|[]]]]]]; reflexivity.
Defined.

(** ** The run: a success reply that cannot be used *)

Section UnusableReply.

Variable rt : Runtime.
Variable w : World.

(** X15. A ticket created but not announced.  When the run reaches the
    ticket request and the tracker answers with a success whose text is not
    JSON, or is JSON for [null], the run throws right after that request:
    nothing is logged about the ticket and no comment is requested. *)
Theorem run_ticket_reply_unusable (path text tpath yaml repo_full : string)
    (ev issue : jsval) (ghLabels : list jsval)
    (form : list (string * jsval)) (res1 : response) :
  (∀ n, n ∈ required_names → truthy (process_env w n) = true) →
  env w !! "GITHUB_EVENT_PATH" = Some path →
  files w !! path = Some text →
  JSON_parse rt text = Some ev →
  get ev "issue" = Some issue →
  truthy issue = true →
  env w !! "GITHUB_REPOSITORY" = Some repo_full →
  ghLabels_of issue = Some ghLabels →
  env w !! "ISSUE_TEMPLATE_PATH" = Some tpath →
  files w !! tpath = Some yaml →
  parseIssue rt (coalesce (get_or_undef issue "body") (JStr EmptyString)) yaml = Some form →
  (∀ req, network w 0 req = Some res1) →
  res_ok res1 = true →
  (JSON_parse rt (res_text res1) = None ∨ JSON_parse rt (res_text res1) = Some JNull) →
  ∃ req e,
    run rt w =
      ([ EvReadFile path;
         EvReadFile tpath;
         EvLog "=== Parsed Issue Form Fields (by ID) ===";
         EvLog (JSON_stringify rt (JObj (fieldLog form)) 2);
         EvFetch req ],
       Thrown e) ∧
    (e = SyntaxError "JSON.parse" ∨
     e = TypeError "Cannot read properties (reading 'key')").
Proof.
  intros Hset Hpath Hfile Hparse Hissue Htruthy Hrepo Hlabels Htpath Hyaml Hform
    Hnet1 Hok1 Hreply.
  unfold run, main.
  rewrite !bind_requiredEnv_ok
    by (apply Hset; unfold required_names; rewrite !elem_of_cons; auto 10).
  lazy zeta.
  rewrite (process_env_set _ _ _ Hpath), (process_env_set _ _ _ Hrepo),
    (process_env_set _ _ _ Htpath).
  rewrite (bind_readFileSync_ok _ _ _ _ _ Hfile).
  rewrite Hparse, bind_ret, Hissue. cbn [or_type_error]. rewrite bind_ret, Htruthy.
  cbn [negb]. rewrite bind_ret, Hlabels. cbn [or_type_error]. rewrite bind_ret.
  rewrite (bind_readFileSync_ok _ _ _ _ _ Hyaml).
  rewrite Hform, bind_ret, !bind_log.
  destruct Hreply as [Hnone|Hnull].
  - rewrite bind_run. unfold jiraCreateIssue. rewrite bind_run. unfold fetch.
    rewrite Hnet1, Hok1. simpl. rewrite Hnone. simpl.
    eexists _, _. split; [reflexivity|by left].
  - rewrite (bind_jiraCreateIssue_ok _ _ _ _ res1 JNull) by done.
    simpl. eexists _, _. split; [reflexivity|by right].
Qed.

End UnusableReply.

Lemma run_ticket_reply_unusable_witness :
  ∃ req e,
    run rt0 world_reply_not_json =
      ([ EvReadFile "event.json"; EvReadFile "bug.yml";
         EvLog "=== Parsed Issue Form Fields (by ID) ===";
         EvLog "{}"; EvFetch req ],
       Thrown e) ∧
    (e = SyntaxError "JSON.parse" ∨
     e = TypeError "Cannot read properties (reading 'key')").
Proof.
  apply (run_ticket_reply_unusable rt0 world_reply_not_json
    "event.json" event_json "bug.yml" "name: Bug" "osano/sdk"
    (JObj [ ("issue", JObj [ ("number", JNum 42) ]) ])
    (JObj [ ("number", JNum 42) ]) [] []
    {| res_status := 200; res_text := "<html>ok</html>" |}); try reflexivity.
  - intros n Hn. unfold required_names in Hn. rewrite !elem_of_cons, elem_of_nil in Hn.
    destruct Hn as [->|[->|[->|[->|[->|[]]]]]]; reflexivity.
  - left. reflexivity.
Defined.

(** ** The description and the characters of the labels *)

Section Listing.

Variable rt : Runtime.

(** X16. The description always has eighteen blocks, and every field other
    than [logs] is listed in it even when it was not entered: a missing
    field has the paragraph [<id>: Field <id> wasn't entered.], a field with
    a text to display has the paragraph [<id>: <text>]. *)
Theorem descriptionContent_lists_fields (issueNumber issueAuthor issueUrl : jsval)
    (form : list (string * jsval)) (id : string) :
  let description :=
    descriptionContent rt issueNumber issueAuthor issueUrl (fieldLog form) in
  length description = 18 ∧
  (id ∈ FIELD_IDS → id ≠ "logs" →
   (isMissing (obj_get form id) = true →
    adfParagraph (JStr (id +:+ ": " +:+ "Field " +:+ id +:+ " wasn't entered."))
      ∈ description) ∧
   (∀ s, valueOrMissing form id = JStr s →
         adfParagraph (JStr (id +:+ ": " +:+ s)) ∈ description)).
Proof.
  intros description. split; [done|]. intros Hid Hlogs.
  assert (∀ s, valueOrMissing form id = JStr s →
               adfParagraph (JStr (id +:+ ": " +:+ s)) ∈ description) as Hshown.
  { intros s Hs. unfold description, descriptionContent.
    apply elem_of_app. right. apply elem_of_app. left.
    apply list_elem_of_In, in_map_iff. exists id. split.
    - unfold field_line, fieldLog. rewrite obj_get_tabulate.
      rewrite bool_decide_eq_true_2 by done. by rewrite Hs.
    - apply list_elem_of_In, list_elem_of_filter. done. }
  split; [|done].
  intros Hm. apply Hshown. unfold valueOrMissing. by rewrite Hm.
Qed.

End Listing.

Lemma descriptionContent_lists_fields_witness :
  adfParagraph (JStr "device: Field device wasn't entered.")
    ∈ descriptionContent rt0 (JNum 42) (JStr "alice") (JStr "https://example.test/42")
        (fieldLog [("logs", JStr "trace")]).
Proof.
  apply (proj1 (proj2 (descriptionContent_lists_fields rt0 (JNum 42) (JStr "alice")
                         (JStr "https://example.test/42") [("logs", JStr "trace")] "device")
                 ltac:(unfold FIELD_IDS; rewrite !elem_of_cons; auto 20)
                 ltac:(discriminate))).
  reflexivity.
Defined.


(** X17. Every Jira label other than the [gh-issue-] one is made of the
    characters [[a-z0-9-_]] only, so it holds no whitespace; the
    [gh-issue-] label is that prefix followed by the issue number as
    printed. *)
Theorem jiraLabels_characters (issueNumber effective : jsval) (ghLabels : list jsval)
    (x : string) :
  x ∈ jiraLabels issueNumber effective ghLabels →
  x = "gh-issue-" +:+ ToString issueNumber ∨
  Forall (λ c, is_label_char c = true) (list_ascii_of_string x).
Proof.
  intros Hx%subseteq_take. unfold StrSet.to_list in Hx.
  rewrite elem_of_of_list, label_candidates_base in Hx.
  assert (∀ v, Forall (λ c, is_label_char c = true)
                 (list_ascii_of_string (sanitizeLabel v))) as Hsan.
  { intros v. unfold sanitizeLabel, sanitize_string.
    rewrite list_ascii_of_string_of_list_ascii. apply sanitize_units_well_formed. }
  apply elem_of_app in Hx as [Hx|Hx].
  - unfold base_labels in Hx. rewrite !elem_of_cons, elem_of_nil in Hx.
    destruct Hx as [->|[->|[->|[->|[->|[]]]]]]; [right..|by left|right];
      try (simpl; repeat constructor).
    rewrite list_ascii_of_string_app. apply Forall_app. split; [|apply Hsan].
    simpl. repeat constructor.
  - right. apply list_elem_of_In, in_map_iff in Hx as (v & <- & _). apply Hsan.
Qed.

Lemma jiraLabels_characters_witness :
  "galaxy-s21-ultra" = "gh-issue-" +:+ ToString (JNum 42) ∨
  Forall (λ c, is_label_char c = true) (list_ascii_of_string "galaxy-s21-ultra").
Proof.
  apply (jiraLabels_characters (JNum 42) (JStr "14.2.0") [JStr "Galaxy S21 Ultra!"]).
  apply (bool_decide_unpack _). vm_compute. exact I.
Defined.

Lemma run_requests_witness :
  length (fetches (run rt1 world_success).1) = 2.
Proof.
  apply (proj2 (run_requests rt1 world_success)). reflexivity.
Defined.

(** ** A blank other-version *)

Lemma space_lower_not_word c : is_space c = true → is_word (to_lower c) = false.
Proof. by destruct c as [[] [] [] [] [] [] [] []]. Qed.

(** X18. When ["Other (specify below)"] is selected and the
    [sdk-version-other] field is a blank string, the field log shows that
    field as not entered, yet the fallback ["Other"] is not used: the
    effective version is the blank string itself and the label set holds the
    bare label ["sdk-"].  Only an absent (undefined or null) other-field
    gives ["sdk-other"]. *)
Theorem blank_other_version_label (form : list (string * jsval))
    (issueNumber : jsval) (ghLabels : list jsval) (rest : list jsval) (s : string) :
  obj_get form "sdk-version" = JArr (JStr "Other (specify below)" :: rest) →
  (obj_get form "sdk-version-other" = JStr s → blank s →
   valueOrMissing form "sdk-version-other" = JStr "Field sdk-version-other wasn't entered." ∧
   effectiveSdkVersion form = JStr s ∧
   "sdk-" ∈ jiraLabels issueNumber (effectiveSdkVersion form) ghLabels) ∧
  (nullish (obj_get form "sdk-version-other") = true →
   "sdk-other" ∈ jiraLabels issueNumber (effectiveSdkVersion form) ghLabels).
Proof.
  intros Hv.
  assert (∀ e, "sdk-" +:+ sanitizeLabel e ∈ jiraLabels issueNumber e ghLabels) as Hlabel.
  { intros e. unfold jiraLabels, StrSet.to_list. apply elem_of_take_of_list.
    rewrite label_candidates_base, take_app. apply elem_of_app. left.
    unfold base_labels. simpl. rewrite !elem_of_cons. auto 10. }
  split.
  - intros Hother Hblank.
    assert (effectiveSdkVersion form = JStr s) as Heff.
    { unfold effectiveSdkVersion, sdkVersion, sdkVersionOther. by rewrite Hv, Hother. }
    split_and!; [|done|].
    + unfold valueOrMissing. rewrite Hother.
      by rewrite (proj2 (isMissing_string s) Hblank).
    + rewrite Heff.
      assert (sanitizeLabel (JStr s) = EmptyString) as Hs.
      { unfold sanitizeLabel, sanitize_string. cbn [ToString].
        assert (sanitize_units (list_ascii_of_string s) = []) as ->; [|done].
        apply sanitize_units_nil_iff. eapply Forall_impl; [exact Hblank|].
        apply space_lower_not_word. }
      specialize (Hlabel (JStr s)). by rewrite Hs in Hlabel.
  - intros Hnull.
    assert (effectiveSdkVersion form = JStr "Other") as ->.
    { unfold effectiveSdkVersion, sdkVersion, sdkVersionOther, coalesce.
      by rewrite Hv, Hnull. }
    apply (Hlabel (JStr "Other")).
Qed.

Lemma blank_other_version_label_witness :
  "sdk-" ∈
    jiraLabels (JNum 42)
      (effectiveSdkVersion
         [("sdk-version", JArr [JStr "Other (specify below)"]);
          ("sdk-version-other", JStr "  ")])
      [].
Proof.
  apply (proj1 (blank_other_version_label
           [("sdk-version", JArr [JStr "Other (specify below)"]);
            ("sdk-version-other", JStr "  ")]
           (JNum 42) [] [] "  " eq_refl) eq_refl).
  unfold blank. simpl. repeat constructor.
Defined.
